(** * Reverse-geocoding client: request building and response handling

    A shallow embedding of the Go package [geocode] (files [service.go] and
    [geocode.go]) together with the parts of the Go standard library the
    package calls: [fmt.Sprintf] for the verbs [%f], [%d] and [%s],
    [strings.Join], [url.Values.Add], [url.Values.Encode] and
    [url.QueryEscape].

    Go strings are byte sequences, which is what [string] is here.  A
    [float64] is a [spec_float] of the IEEE-754 specification shipped with
    Rocq; the map type [url.Values] is a [gmap] from strings to lists of
    strings; a [*Service] is an address into a heap of [Service] records. *)

From Stdlib Require Import ZArith Ascii SpecFloat.
From stdpp Require Import gmap strings list fin_maps sorting pretty.

#[local] Set Warnings "-clear-no-such-hyp".

Local Open Scope Z_scope.

(** ** Floating point numbers *)

Module F64.

Definition float64 : Type := spec_float.

(** The literal [0]. *)
Definition zero : float64 := S754_zero false.

(** Go's [x != y] on floats: true on unordered operands (NaN). *)
Definition ne (x y : float64) : bool := negb (SFeqb x y).

(** A binary64 value, as opposed to an arbitrary mantissa and exponent. *)
Definition valid (x : float64) : bool := valid_binary 53 1024 x.

End F64.

Abbreviation float64 := F64.float64.

(** ** Formatting: the Go packages [strconv], [fmt] and [strings] *)

Module Fmt.

(** [%d] on an [int]. *)
Definition itoa (n : Z) : string := pretty n.

Fixpoint zeros (n : nat) : string :=
  match n with
  | O => ""
  | S n' => String "0" (zeros n')
  end.

(** [n] printed on at least [w] digits, padded with zeros on the left. *)
Definition pad_left (w : nat) (n : Z) : string :=
  let s := itoa n in zeros (w - String.length s) +:+ s.

(** The value [m * 2^e * 10^6] rounded to the nearest integer, ties to the
    even one: [strconv] shifts the exact decimal expansion of the mantissa
    and rounds it at the sixth fractional digit ([decimal.Round], whose
    [shouldRoundUp] rounds an exact half to even). *)
Definition round6 (m : positive) (e : Z) : Z :=
  let n := Z.pos m * 10 ^ 6 in
  if 0 <=? e then n * 2 ^ e
  else
    let d := 2 ^ (- e) in
    let q := n / d in
    let r := n mod d in
    match 2 * r ?= d with
    | Lt => q
    | Gt => q + 1
    | Eq => if Z.even q then q else q + 1
    end.

(** [fmt.Sprintf("%f", x)]: precision 6; infinities are printed with their
    sign and a NaN as [NaN]. *)
Definition sprintf_f (x : float64) : string :=
  match x with
  | S754_nan => "NaN"
  | S754_infinity s => if s then "-Inf" else "+Inf"
  | S754_zero s => (if s then "-" else "") +:+ "0.000000"
  | S754_finite s m e =>
      let n := round6 m e in
      (if s then "-" else "") +:+
      itoa (n / 10 ^ 6) +:+ "." +:+ pad_left 6 (n mod 10 ^ 6)
  end.

(** [strings.Join(elems, sep)]. *)
Fixpoint Join (elems : list string) (sep : string) : string :=
  match elems with
  | [] => ""
  | [x] => x
  | x :: rest => x +:+ sep +:+ Join rest sep
  end.

End Fmt.

(** ** Query strings: the Go package [net/url] *)

Module URL.

Definition in_range (lo hi c : ascii) : bool :=
  (N_of_ascii lo <=? N_of_ascii c)%N && (N_of_ascii c <=? N_of_ascii hi)%N.

(** [shouldEscape(c, encodeQueryComponent)]: only the unreserved characters
    of RFC 3986 are left alone. *)
Definition shouldEscape (c : ascii) : bool :=
  if in_range "a" "z" c || in_range "A" "Z" c || in_range "0" "9" c then false
  else
    match c with
    | "-" | "_" | "." | "~" => false
    | _ => true
    end%char.

Definition upperhex (n : N) : ascii :=
  default "0"%char (String.get (N.to_nat n) "0123456789ABCDEF").

(** What [escape] writes for one byte. *)
Definition escape_byte (c : ascii) : string :=
  if Ascii.eqb c " " then "+"
  else if shouldEscape c then
    String "%" (String (upperhex (N.shiftr (N_of_ascii c) 4))
               (String (upperhex (N.land (N_of_ascii c) 15)) ""))
  else String c "".

(** [url.QueryEscape(s)], that is [escape(s, encodeQueryComponent)]. *)
Fixpoint QueryEscape (s : string) : string :=
  match s with
  | "" => ""
  | String c s' => escape_byte c +:+ QueryEscape s'
  end.

(** [sort.Strings] orders byte-wise, as [String.le] does. *)
Definition sort_Strings (l : list string) : list string := merge_sort String.le l.

(** [url.Values] is [map[string][]string]. *)
Definition Values_Get (v : gmap string (list string)) (k : string) : list string :=
  default [] (v !! k).

(** [v.Add(key, value)]: [v[key] = append(v[key], value)]. *)
Definition Add (k x : string) (v : gmap string (list string)) : gmap string (list string) :=
  <[k := Values_Get v k ++ [x]]> v.

(** One iteration of the inner loop of [Encode]. *)
Definition write_pair (keyEscaped : string) (buf x : string) : string :=
  (if (0 <? String.length buf)%nat then buf +:+ "&" else buf)
    +:+ keyEscaped +:+ "=" +:+ QueryEscape x.

(** One iteration of the outer loop of [Encode]. *)
Definition write_key (v : gmap string (list string)) (buf k : string) : string :=
  foldl (write_pair (QueryEscape k)) buf (Values_Get v k).

(** [v.Encode()]: the keys sorted, every value of every key written as
    [key=value], both escaped, separated by [&]. *)
Definition Encode (v : gmap string (list string)) : string :=
  if decide (size v = 0%nat) then ""
  else foldl (write_key v) "" (sort_Strings (map fst (map_to_list v))).

(** The parameters in the order [Encode] writes them, and what it writes
    for each. *)
Definition pairs (v : gmap string (list string)) : list (string * string) :=
  k ← sort_Strings (map fst (map_to_list v)); (fun x => (k, x)) <$> Values_Get v k.

Definition render (p : string * string) : string :=
  QueryEscape (fst p) +:+ "=" +:+ QueryEscape (snd p).

(** The bytes [QueryEscape] can write: unreserved ones, [%] and [+]. *)
Definition query_safe (c : ascii) : bool :=
  negb (shouldEscape c) || Ascii.eqb c "%" || Ascii.eqb c "+".

Fixpoint all_chars (P : ascii -> bool) (s : string) : bool :=
  match s with
  | "" => true
  | String c s' => P c && all_chars P s'
  end.

End URL.

(** ** Errors *)

(** Modelled from the spec: the struct type [apiError] is declared outside
    [service.go] and [geocode.go]; it carries the two fields [Do] fills in,
    the status string and the optional message. *)
Record apiError : Type := mkApiError {
  api_Status : string;
  api_Message : string
}.

(** Go [error] values.  [errorString] is what [errors.New] and [fmt.Errorf]
    build; [foreignError] stands for the errors of [net/http], [io] and
    [encoding/json], which the package hands on unchanged. *)
Inductive error : Type :=
| errorString (msg : string)
| apiErr (e : apiError)
| foreignError (msg : string).

Definition errLatLngOrPlaceIdRequire : error :=
  errorString "Lat,Lng or PlaceId is required".

(** ** The transport and the programs that talk to it *)

Module HTTP.

(** A [*http.Client]: [None] is the nil pointer, [Some k] a client of the
    environment.  A response body is a handle of the environment. *)
Definition Client : Type := option nat.
Definition Body : Type := nat.

Record Response : Type := mkResponse {
  StatusCode : Z;
  RespBody : Body
}.

Definition StatusOK : Z := 200.

(** The calls [Do] makes on the environment, indexed by what they return. *)
Variant event : Type -> Type :=
| Get (c : Client) (url : string) : event (Response + error)
| ReadAll (b : Body) : event (string + error)
| Close (b : Body) : event unit.

(** A program: it returns, panics, or makes a call and goes on with the
    answer. *)
Inductive Prog (A : Type) : Type :=
| Ret (a : A)
| Panic
| Vis (X : Type) (e : event X) (k : X -> Prog A).

Arguments Ret {A} a.
Arguments Panic {A}.
Arguments Vis {A X} e k.

Fixpoint bind {A B : Type} (p : Prog A) (f : A -> Prog B) : Prog B :=
  match p with
  | Ret a => f a
  | Panic => Panic
  | Vis e k => Vis e (fun x => bind (k x) f)
  end.

Definition call {X : Type} (e : event X) : Prog X := Vis e Ret.

(** [defer b.Close()]: the body is closed when the function returns. *)
Definition defer_Close {A : Type} (b : Body) (p : Prog A) : Prog A :=
  bind p (fun a => bind (call (Close b)) (fun _ => Ret a)).

(** The environment: what the network answers.  [Do] makes each call at
    most once, so an environment with state answers it as one of these. *)
Record World : Type := mkWorld {
  transport : nat -> string -> Response + error;
  on_ReadAll : Body -> string + error
}.

(** What [c.Get(url)] gives.  [Client.Get] builds the request and hands it
    to [c.Do], which reads a field of [c]: on a nil receiver the call panics
    inside [net/http] before anything is sent ([None]).  ([Get] returns an
    error instead when the URL does not parse; the URLs [Do] builds do.) *)
Definition on_Get (w : World) (c : Client) (u : string) : option (Response + error) :=
  match c with
  | Some k => Some (transport w k u)
  | None => None
  end.

(** The outcome of a call: [None] when the call itself panics. *)
Definition answer (w : World) {X : Type} (e : event X) : option X :=
  match e in event T return option T with
  | Get c u => on_Get w c u
  | ReadAll b => Some (on_ReadAll w b)
  | Close _ => Some tt
  end.

(** Running a program: the calls that reached the environment, in order,
    and the result ([None] for a panic). *)
Fixpoint run (w : World) {A : Type} (p : Prog A) : list (sigT event) * option A :=
  match p with
  | Ret a => ([], Some a)
  | Panic => ([], None)
  | Vis e k =>
      match answer w e with
      | None => ([], None)
      | Some x =>
          let '(tr, r) := run w (k x) in
          (existT _ e :: tr, r)
      end
  end.

End HTTP.

Notation "'let*' x ':=' p 'in' q" := (HTTP.bind p (fun x => q))
  (at level 10, x name, p at level 100, q at level 200).

(** ** service.go *)

Definition baseURL : string := "https://maps.googleapis.com/maps/api/geocode".

Record Service : Type := mkService {
  client : HTTP.Client;
  key : string;
  url : string
}.

(** Services live in a heap and are used through their address. *)
Definition addr : Type := positive.

Definition NewService (c : HTTP.Client) (k : string) (h : gmap addr Service)
  : addr * gmap addr Service :=
  let p := fresh (dom h) in
  (p, <[p := {| client := c; key := k; url := baseURL |}]> h).

(** [s.url = url]; a nil receiver panics ([None]). *)
Definition SetURL (p : addr) (u : string) (h : gmap addr Service)
  : option (gmap addr Service) :=
  match h !! p with
  | Some s => Some (<[p := {| client := client s; key := key s; url := u |}]> h)
  | None => None
  end.

(** ** geocode.go *)

Record ReverseGeocodeCall : Type := mkCall {
  service : addr;
  lat : float64;
  lng : float64;
  PlaceId : string;
  Language : string;
  ResultType : list string;
  LocationType : list string
}.

Definition ReverseGeocode (p : addr) (lat lng : float64) : ReverseGeocodeCall :=
  {| service := p; lat := lat; lng := lng; PlaceId := ""; Language := "";
     ResultType := []; LocationType := [] |}.

Record AddressComponent : Type := mkAddressComponent {
  ac_Types : list string;
  LongName : string;
  ShortName : string
}.

Record LatLng : Type := mkLatLng { Lat : float64; Lng : float64 }.

Record LatLngArea : Type := mkLatLngArea { SoutWest : LatLng; NorthEase : LatLng }.

Record Geometry : Type := mkGeometry {
  Location : LatLng;
  geo_LocationType : string;
  Viewport : LatLngArea;
  Bounds : LatLngArea
}.

Record GeocodeDetail : Type := mkGeocodeDetail {
  Types : list string;
  FormattedAddress : string;
  AddressComponents : list AddressComponent;
  FormattedPhoneNumber : string;
  gd_Geometry : Geometry;
  PartialMatch : string;
  PlaceID : string
}.

Record GeocodeResponse : Type := mkGeocodeResponse {
  Results : list GeocodeDetail;
  Status : string;
  ErrorMessage : string;
  HTMLAttributions : list string
}.

Definition str_nonempty (s : string) : bool := negb (String.eqb s "").

(** [nil] is [None]. *)
Definition validate (n : ReverseGeocodeCall) : option error :=
  if F64.ne (lat n) F64.zero || F64.ne (lng n) F64.zero then None
  else if str_nonempty (PlaceId n) then None
  else Some errLatLngOrPlaceIdRequire.

(** [fmt.Sprintf("%f,%f", lat, lng)]. *)
Definition latlng_string (la ln : float64) : string :=
  Fmt.sprintf_f la +:+ "," +:+ Fmt.sprintf_f ln.

Definition add_if (b : bool) (k x : string) (v : gmap string (list string))
  : gmap string (list string) :=
  if b then URL.Add k x v else v.

(** [for _, t := range l { out = append(out, string(t)) }], from a nil
    [out]. *)
Definition append_each (l : list string) : list string :=
  foldl (fun out t => out ++ [t]) [] l.

(** The [url.Values] that [query] fills before encoding it; [s] is the
    service [r.service] points to. *)
Definition query_values (s : Service) (r : ReverseGeocodeCall) : gmap string (list string) :=
  let query := URL.Add "key" (key s) ∅ in
  let query :=
    add_if (F64.ne (lat r) F64.zero || F64.ne (lng r) F64.zero)
           "latlng" (latlng_string (lat r) (lng r)) query in
  let query := add_if (str_nonempty (PlaceId r)) "place_id" (Language r) query in
  let query := add_if (str_nonempty (Language r)) "language" (Language r) query in
  let resultTypes := append_each (ResultType r) in
  let query :=
    add_if (0 <? length resultTypes)%nat "result_type" (Fmt.Join resultTypes "|") query in
  let locationTypes := append_each (LocationType r) in
  let query :=
    add_if (0 <? length locationTypes)%nat "location_type" (Fmt.Join locationTypes "|") query in
  query.

(** [r.query()]; dereferencing a dangling [r.service] panics ([None]). *)
Definition query (h : gmap addr Service) (r : ReverseGeocodeCall) : option string :=
  match h !! service r with
  | Some s => Some (URL.Encode (query_values s r))
  | None => None
  end.

(** [fmt.Errorf("bad resp %d: %s", code, body)]. *)
Definition bad_resp (code : Z) (body : string) : error :=
  errorString ("bad resp " +:+ Fmt.itoa code +:+ ": " +:+ body).

Section Do.

(** [json.Unmarshal] into a fresh [GeocodeResponse]. *)
Variable Unmarshal : string -> GeocodeResponse + error.

(** What [Do] does with the body once it has been read. *)
Definition handle_body (resp : HTTP.Response) (body : string)
  : GeocodeResponse + error :=
  if negb (HTTP.StatusCode resp =? HTTP.StatusOK) then
    inr (bad_resp (HTTP.StatusCode resp) body)
  else
    match Unmarshal body with
    | inr err => inr err
    | inl data =>
        if negb (String.eqb (Status data) "OK") then
          inr (apiErr {| api_Status := Status data; api_Message := ErrorMessage data |})
        else inl data
    end.

Definition Do (h : gmap addr Service) (n : ReverseGeocodeCall)
  : HTTP.Prog (GeocodeResponse + error) :=
  match validate n with
  | Some err => HTTP.Ret (inr err)
  | None =>
      match query h n, h !! service n with
      | Some q, Some s =>
          let searchURL := baseURL +:+ "/json?" +:+ q in
          let* r := HTTP.call (HTTP.Get (client s) searchURL) in
          match r with
          | inr err => HTTP.Ret (inr err)
          | inl resp =>
              HTTP.defer_Close (HTTP.RespBody resp)
                (let* b := HTTP.call (HTTP.ReadAll (HTTP.RespBody resp)) in
                 match b with
                 | inr err => HTTP.Ret (inr err)
                 | inl body => HTTP.Ret (handle_body resp body)
                 end)
          end
      | _, _ => HTTP.Panic
      end
  end.

End Do.

(** ** The query in closed form *)

Definition has_coords (r : ReverseGeocodeCall) : bool :=
  F64.ne (lat r) F64.zero || F64.ne (lng r) F64.zero.

Definition param_if (b : bool) (k x : string) : list (string * string) :=
  if b then [(k, x)] else [].

(** The optional parameters of a call, by key in byte order. *)
Definition params_tail (r : ReverseGeocodeCall) : list (string * string) :=
  param_if (str_nonempty (Language r)) "language" (Language r)
  ++ param_if (has_coords r) "latlng" (latlng_string (lat r) (lng r))
  ++ param_if (0 <? length (LocationType r))%nat "location_type" (Fmt.Join (LocationType r) "|")
  ++ param_if (str_nonempty (PlaceId r)) "place_id" (Language r)
  ++ param_if (0 <? length (ResultType r))%nat "result_type" (Fmt.Join (ResultType r) "|").

(** The parameters of a call, by key in byte order. *)
Definition params (s : Service) (r : ReverseGeocodeCall) : list (string * string) :=
  ("key", key s) :: params_tail r.

(** The bytes of a query string: those [QueryEscape] writes and the two
    separators. *)
Definition query_byte (c : ascii) : bool :=
  URL.query_safe c || Ascii.eqb c "&" || Ascii.eqb c "=".

(** Keys in strictly increasing byte order. *)
Definition str_lt (a b : string) : Prop := String.ltb a b = true.

(** ** Sample services, calls and environments *)

Module Sample.

Definition service_K : Service := {| client := Some 0%nat; key := "K"; url := baseURL |}.

Definition service_local : Service :=
  {| client := Some 0%nat; key := "K"; url := "http://localhost:8080" |}.

Definition heap : gmap addr Service := (NewService (Some 0%nat) "K" ∅).2.
Definition svc : addr := (NewService (Some 0%nat) "K" ∅).1.

(** The heap after [SetURL] with a local endpoint. *)
Definition heap_local : gmap addr Service :=
  default ∅ (SetURL svc "http://localhost:8080" heap).

(** 13.75 and 100.5 *)
Definition lat_bkk : float64 := S754_finite false 7740561859543040 (-49).
Definition lng_bkk : float64 := S754_finite false 7072058789855232 (-46).

Definition call : ReverseGeocodeCall := ReverseGeocode svc lat_bkk lng_bkk.

Definition call_filtered : ReverseGeocodeCall :=
  {| service := svc; lat := lat_bkk; lng := lng_bkk; PlaceId := ""; Language := "th";
     ResultType := ["country"; "postal_code"]; LocationType := ["ROOFTOP"] |}.

Definition call_place : ReverseGeocodeCall :=
  {| service := svc; lat := F64.zero; lng := F64.zero; PlaceId := "ChIJ82ENKDJgHTERIEjiXbIAAQE";
     Language := "th"; ResultType := []; LocationType := [] |}.

Definition call_empty : ReverseGeocodeCall := ReverseGeocode svc F64.zero (S754_zero true).

Definition dq : string := String "034" "".

(** [{"status":"ZERO_RESULTS"}] *)
Definition body_zero_results : string :=
  "{" +:+ dq +:+ "status" +:+ dq +:+ ":" +:+ dq +:+ "ZERO_RESULTS" +:+ dq +:+ "}".

Definition zero_results : GeocodeResponse :=
  {| Results := []; Status := "ZERO_RESULTS"; ErrorMessage := ""; HTMLAttributions := [] |}.

(** A decoder that knows one body. *)
Definition Unmarshal (body : string) : GeocodeResponse + error :=
  if String.eqb body body_zero_results then inl zero_results
  else inr (foreignError "invalid character").

(** A transport that answers every request with the given status and body. *)
Definition world (code : Z) (body : string) : HTTP.World :=
  {| HTTP.transport := fun _ _ => inl (HTTP.mkResponse code 7%nat);
     HTTP.on_ReadAll := fun _ => inl body |}.

End Sample.

(** The calls of a run that reaches the body, and the URL [Do] asks for. *)
Definition searchURL (q : string) : string := baseURL +:+ "/json?" +:+ q.

Definition trace_of (c : HTTP.Client) (u : string) (b : HTTP.Body) : list (sigT HTTP.event) :=
  [existT _ (HTTP.Get c u); existT _ (HTTP.ReadAll b); existT _ (HTTP.Close b)].

(** ** Field assignment, byte counting and failing environments *)

(** [call.PlaceId = pid] on the exported field. *)
Definition set_PlaceId (pid : string) (r : ReverseGeocodeCall) : ReverseGeocodeCall :=
  {| service := service r; lat := lat r; lng := lng r; PlaceId := pid;
     Language := Language r; ResultType := ResultType r;
     LocationType := LocationType r |}.

(** How often the byte [c] occurs in [s]. *)
Fixpoint count_char (c : ascii) (s : string) : nat :=
  match s with
  | "" => O
  | String c' s' => ((if Ascii.eqb c' c then 1 else 0) + count_char c s')%nat
  end.

Module Outage.

Definition refused : error := foreignError "dial tcp: connection refused".

Definition cut : error := foreignError "unexpected EOF".

(** No connection: every [Get] fails. *)
Definition world_down : HTTP.World :=
  {| HTTP.transport := fun _ _ => inr refused;
     HTTP.on_ReadAll := fun _ => inr cut |}.

(** The status line arrives, the body does not. *)
Definition world_cut (code : Z) : HTTP.World :=
  {| HTTP.transport := fun _ _ => inl (HTTP.mkResponse code 7%nat);
     HTTP.on_ReadAll := fun _ => inr cut |}.

(** [{"status":"OK"}] and what it decodes to. *)
Definition body_ok : string :=
  "{" +:+ Sample.dq +:+ "status" +:+ Sample.dq +:+ ":" +:+ Sample.dq +:+ "OK"
  +:+ Sample.dq +:+ "}".

Definition response_ok : GeocodeResponse :=
  {| Results := []; Status := "OK"; ErrorMessage := ""; HTMLAttributions := [] |}.

Definition Unmarshal_ok (body : string) : GeocodeResponse + error :=
  if String.eqb body body_ok then inl response_ok
  else inr (foreignError "invalid character").

End Outage.

(** ** What [%f] has to print *)

Module Decimal.

Definition is_digit (c : ascii) : bool :=
  (48 <=? N_of_ascii c)%N && (N_of_ascii c <=? 57)%N.

(** The number a string of decimal digits stands for. *)
Fixpoint digits_value (s : string) : Z :=
  match s with
  | "" => 0
  | String c s' =>
      (Z.of_N (N_of_ascii c) - 48) * 10 ^ Z.of_nat (String.length s') + digits_value s'
  end.

(** No leading zero, except for the numeral [0] itself. *)
Definition canonical (s : string) : bool :=
  match s with
  | "" => false
  | String c "" => true
  | String c _ => negb (Ascii.eqb c "0")
  end.

(** [n] is the integer nearest to [m * 2^e * 10^6], the even one when two
    integers are equally near. *)
Definition nearest6 (m : positive) (e : Z) (n : Z) : Prop :=
  if 0 <=? e then n = Z.pos m * 2 ^ e * 10 ^ 6
  else
    Z.abs (2 * (n * 2 ^ (- e) - Z.pos m * 10 ^ 6)) ≤ 2 ^ (- e)
    ∧ (Z.abs (2 * (n * 2 ^ (- e) - Z.pos m * 10 ^ 6)) = 2 ^ (- e) → Z.even n = true).

(** [out] is the number [x] in the format [%f]: a finite number as its
    sign, the digits of its integer part, a point and exactly six more
    digits, which together are the value rounded to the sixth decimal; a
    NaN or an infinity by its name. *)
Definition printed_f (x : float64) (out : string) : Prop :=
  match x with
  | S754_nan => out = "NaN"
  | S754_infinity sg => out = if sg then "-Inf" else "+Inf"
  | S754_zero sg => out = (if sg then "-" else "") +:+ "0.000000"
  | S754_finite sg m e =>
      ∃ int frac,
        out = (if sg then "-" else "") +:+ int +:+ "." +:+ frac
        ∧ String.length frac = 6%nat
        ∧ URL.all_chars is_digit int = true
        ∧ URL.all_chars is_digit frac = true
        ∧ canonical int = true
        ∧ nearest6 m e (digits_value int * 10 ^ 6 + digits_value frac)
  end.

End Decimal.

(** ** Reading a query string back: [url.QueryUnescape] and the pairs of
    [url.ParseQuery] *)

Module Decode.

Definition ishex (c : ascii) : bool :=
  URL.in_range "0" "9" c || URL.in_range "a" "f" c || URL.in_range "A" "F" c.

Definition unhex (c : ascii) : N :=
  if URL.in_range "0" "9" c then N_of_ascii c - 48
  else if URL.in_range "a" "f" c then N_of_ascii c - 97 + 10
  else if URL.in_range "A" "F" c then N_of_ascii c - 65 + 10
  else 0.

(** [url.QueryUnescape(s)]: [%XY] is the byte with hexadecimal digits [XY],
    [+] is a space, a [%] not followed by two hexadecimal digits is an error
    ([None]). *)
Fixpoint QueryUnescape (s : string) : option string :=
  match s with
  | "" => Some ""
  | String c rest =>
      if Ascii.eqb c "%" then
        match rest with
        | String a (String b rest') =>
            if ishex a && ishex b then
              String (ascii_of_N (N.lor (N.shiftl (unhex a) 4) (unhex b)))
                <$> QueryUnescape rest'
            else None
        | _ => None
        end
      else if Ascii.eqb c "+" then String " " <$> QueryUnescape rest
      else String c <$> QueryUnescape rest
  end.

(** [strings.Cut(s, sep)] for a one-byte separator: the part before the
    first [sep] and the part after it, the whole of [s] and nothing when
    there is none. *)
Fixpoint Cut (sep : ascii) (s : string) : string * string :=
  match s with
  | "" => ("", "")
  | String c s' =>
      if Ascii.eqb c sep then ("", s')
      else let '(before, after) := Cut sep s' in (String c before, after)
  end.

(** The segments between the separators. *)
Fixpoint segments (sep : ascii) (s : string) : list string :=
  match s with
  | "" => [""]
  | String c s' =>
      if Ascii.eqb c sep then "" :: segments sep s'
      else
        match segments sep s' with
        | seg :: rest => String c seg :: rest
        | [] => [String c ""]
        end
  end.

Definition parse_pair (seg : string) : option (string * string) :=
  let '(k, v) := Cut "=" seg in
  match QueryUnescape k, QueryUnescape v with
  | Some k', Some v' => Some (k', v')
  | _, _ => None
  end.

(** The pairs [url.ParseQuery] adds, in the order of the string: empty
    segments are skipped, a segment that does not decode is an error. *)
Definition parse_query (q : string) : option (list (string * string)) :=
  mapM parse_pair (filter (fun seg => seg ≠ "") (segments "&" q)).

End Decode.

(** ** Calls at the edges of the number format *)

Module Edge.

Definition one : float64 := S754_finite false 4503599627370496 (-52).

(** 0.05, the nearest binary64. *)
Definition twentieth : float64 := S754_finite false 7205759403792794 (-57).

Definition call_nan : ReverseGeocodeCall := ReverseGeocode Sample.svc S754_nan F64.zero.

Definition call_plus_zero : ReverseGeocodeCall :=
  ReverseGeocode Sample.svc (S754_zero false) one.

Definition call_minus_zero : ReverseGeocodeCall :=
  ReverseGeocode Sample.svc (S754_zero true) one.

End Edge.

(** ** Strings *)

Section StringFacts.

Lemma str_app_cons (c : ascii) (a b : string) : String c a +:+ b = String c (a +:+ b).
Proof. done. Qed.

Lemma str_app_nil_r (s : string) : s +:+ "" = s.
Proof. induction s as [|c s IH]; [done|]. by rewrite str_app_cons, IH. Qed.

Lemma str_app_assoc (a b c : string) : (a +:+ b) +:+ c = a +:+ b +:+ c.
Proof. induction a as [|x a IH]; [done|]. by rewrite !str_app_cons, IH. Qed.

Lemma str_app_length (a b : string) :
  String.length (a +:+ b) = (String.length a + String.length b)%nat.
Proof. induction a as [|x a IH]; [done|]. rewrite str_app_cons. cbn. by rewrite IH. Qed.

Lemma all_chars_app P (a b : string) :
  URL.all_chars P (a +:+ b) = URL.all_chars P a && URL.all_chars P b.
Proof.
  induction a as [|x a IH]; [done|].
  rewrite str_app_cons. cbn. rewrite IH. by rewrite andb_assoc.
Qed.

Lemma Join_cons (x y : string) (l : list string) (sep : string) :
  Fmt.Join (x :: y :: l) sep = x +:+ sep +:+ Fmt.Join (y :: l) sep.
Proof. done. Qed.

Lemma Join_snoc (l : list string) (x sep : string) :
  l ≠ [] → Fmt.Join (l ++ [x]) sep = Fmt.Join l sep +:+ sep +:+ x.
Proof.
  induction l as [|a [|b l] IH]; intros Hne; [done|done|].
  change ((a :: b :: l) ++ [x]) with (a :: b :: (l ++ [x])).
  rewrite !Join_cons. change (b :: l ++ [x]) with ((b :: l) ++ [x]).
  rewrite IH by done. by rewrite !str_app_assoc.
Qed.

Lemma Join_nonempty (l : list string) (sep : string) :
  l ≠ [] → Forall (fun x => x ≠ "") l → Fmt.Join l sep ≠ "".
Proof.
  destruct l as [|a [|b l]]; intros Hne Hall; [done| |].
  - by inversion Hall.
  - rewrite Join_cons. inversion Hall as [|?? Ha _]; subst.
    destruct a; [done|]. by rewrite str_app_cons.
Qed.

End StringFacts.

(** ** Escaping and encoding *)

Section URLFacts.

Lemma QueryEscape_app (a b : string) :
  URL.QueryEscape (a +:+ b) = URL.QueryEscape a +:+ URL.QueryEscape b.
Proof.
  induction a as [|c a IH]; [done|].
  rewrite str_app_cons. cbn [URL.QueryEscape]. by rewrite IH, str_app_assoc.
Qed.

(** Joining with a pipe and escaping is joining the escaped elements with
    the escaped pipe. *)
Lemma QueryEscape_Join (l : list string) :
  URL.QueryEscape (Fmt.Join l "|") = Fmt.Join (URL.QueryEscape <$> l) "%7C".
Proof.
  induction l as [|a [|b l] IH]; [done|done|].
  rewrite Join_cons, !QueryEscape_app, IH. done.
Qed.

Lemma escape_byte_safe (c : ascii) :
  URL.all_chars URL.query_safe (URL.escape_byte c) = true.
Proof. destruct c as [[] [] [] [] [] [] [] []]; vm_compute; reflexivity. Qed.

Lemma QueryEscape_safe (s : string) :
  URL.all_chars URL.query_safe (URL.QueryEscape s) = true.
Proof.
  induction s as [|c s IH]; [done|].
  cbn [URL.QueryEscape]. by rewrite all_chars_app, escape_byte_safe, IH.
Qed.

Lemma render_nonempty (p : string * string) : URL.render p ≠ "".
Proof.
  unfold URL.render. intros H.
  apply (f_equal String.length) in H. rewrite !str_app_length in H.
  cbn in H. lia.
Qed.

Lemma Join_render_nonempty (l : list (string * string)) :
  l ≠ [] → Fmt.Join (URL.render <$> l) "&" ≠ "".
Proof.
  intros Hne. apply Join_nonempty.
  - by destruct l.
  - apply Forall_fmap, Forall_forall. intros p _. apply render_nonempty.
Qed.

(** The inner loop of [Encode] appends one rendered pair to the part
    written so far. *)
Lemma write_pair_Join (done_ : list (string * string)) (k x : string) :
  URL.write_pair (URL.QueryEscape k) (Fmt.Join (URL.render <$> done_) "&") x
  = Fmt.Join (URL.render <$> (done_ ++ [(k, x)])) "&".
Proof.
  unfold URL.write_pair. rewrite fmap_app. cbn [fmap list_fmap].
  destruct (decide (done_ = [])) as [->|Hne]; [done|].
  rewrite Join_snoc by (by destruct done_).
  pose proof (Join_render_nonempty done_ Hne) as Hbuf.
  destruct (Fmt.Join (URL.render <$> done_) "&") as [|c buf] eqn:E; [done|].
  cbn [String.length Nat.ltb Nat.leb]. by rewrite !str_app_assoc.
Qed.

Lemma write_values_Join (done_ : list (string * string)) (k : string) (xs : list string) :
  foldl (URL.write_pair (URL.QueryEscape k)) (Fmt.Join (URL.render <$> done_) "&") xs
  = Fmt.Join (URL.render <$> (done_ ++ ((fun x => (k, x)) <$> xs))) "&".
Proof.
  revert done_. induction xs as [|x xs IH]; intros done_.
  - by rewrite app_nil_r.
  - cbn [foldl]. rewrite write_pair_Join, IH.
    by rewrite <- app_assoc.
Qed.

Lemma write_keys_Join (v : gmap string (list string))
    (done_ : list (string * string)) (ks : list string) :
  foldl (URL.write_key v) (Fmt.Join (URL.render <$> done_) "&") ks
  = Fmt.Join (URL.render <$>
      (done_ ++ (k ← ks; (fun x => (k, x)) <$> URL.Values_Get v k))) "&".
Proof.
  revert done_. induction ks as [|k ks IH]; intros done_.
  - by rewrite app_nil_r.
  - cbn [foldl mbind list_bind]. unfold URL.write_key at 2.
    rewrite write_values_Join, IH. by rewrite <- app_assoc.
Qed.

(** [Encode] is the [&]-join of the rendered pairs. *)
Lemma Encode_pairs (v : gmap string (list string)) :
  URL.Encode v = Fmt.Join (URL.render <$> URL.pairs v) "&".
Proof.
  unfold URL.Encode, URL.pairs. case_decide as Hsz.
  - apply map_size_empty_inv in Hsz as ->. by rewrite map_to_list_empty.
  - apply (write_keys_Join v []).
Qed.

Lemma elem_of_sort_Strings (k : string) (l : list string) :
  k ∈ URL.sort_Strings l ↔ k ∈ l.
Proof. unfold URL.sort_Strings. by rewrite merge_sort_Permutation. Qed.

Lemma elem_of_keys (v : gmap string (list string)) (k : string) :
  k ∈ map fst (map_to_list v) ↔ is_Some (v !! k).
Proof.
  change (map fst (map_to_list v)) with ((map_to_list v).*1).
  rewrite list_elem_of_fmap. split.
  - intros [[k' xs] [-> Hin]]. apply elem_of_map_to_list in Hin. eauto.
  - intros [xs Hxs]. exists (k, xs). split; [done|]. by apply elem_of_map_to_list.
Qed.

(** A pair is written exactly when the value is one of those of the key. *)
Lemma elem_of_pairs (v : gmap string (list string)) (k x : string) :
  (k, x) ∈ URL.pairs v ↔ x ∈ URL.Values_Get v k.
Proof.
  unfold URL.pairs. rewrite list_elem_of_bind. split.
  - intros [k' [Hin _]]. apply list_elem_of_fmap in Hin as [x' [[= -> ->] Hin]]. done.
  - intros Hin. exists k. split; [apply list_elem_of_fmap; eauto|].
    apply elem_of_sort_Strings, elem_of_keys.
    unfold URL.Values_Get in Hin. destruct (v !! k); [eauto|]. by inversion Hin.
Qed.

Lemma sort_Strings_sorted (l : list string) : StronglySorted String.le (URL.sort_Strings l).
Proof. apply StronglySorted_merge_sort; apply _. Qed.

End URLFacts.

Section QueryFacts.

Lemma append_each_id (l : list string) : append_each l = l.
Proof.
  unfold append_each.
  cut (∀ out, foldl (fun out t => out ++ [t]) out l = out ++ l); [intros H; apply H|].
  induction l as [|t l IH]; intros out; cbn [foldl].
  - by rewrite app_nil_r.
  - by rewrite IH, <- app_assoc.
Qed.

Lemma pairs_query_values (s : Service) (r : ReverseGeocodeCall) :
  URL.pairs (query_values s r) = params s r.
Proof.
  unfold query_values, params, params_tail, has_coords. rewrite !append_each_id.
  generalize (latlng_string (lat r) (lng r)) (Fmt.Join (ResultType r) "|")
             (Fmt.Join (LocationType r) "|") (key s) (Language r).
  intros ll rt lt k lang.
  destruct (F64.ne (lat r) F64.zero || F64.ne (lng r) F64.zero),
           (str_nonempty (PlaceId r)), (str_nonempty lang),
           (0 <? length (ResultType r))%nat, (0 <? length (LocationType r))%nat;
    vm_compute; reflexivity.
Qed.

End QueryFacts.

(** ** Validation *)

Section ValidateFacts.

Lemma ne_zero_false (x : float64) :
  F64.ne x F64.zero = false ↔ ∃ sg, x = S754_zero sg.
Proof.
  split.
  - destruct x as [sg|sg| |sg m e]; try (by eauto); by destruct sg.
  - by intros [sg ->].
Qed.

Lemma str_nonempty_true (s : string) : str_nonempty s = true ↔ s ≠ "".
Proof. unfold str_nonempty. by destruct s. Qed.

Lemma str_nonempty_false (s : string) : str_nonempty s = false ↔ s = "".
Proof. unfold str_nonempty. by destruct s. Qed.

Lemma length_pos {A} (l : list A) : (0 <? length l)%nat = true ↔ l ≠ [].
Proof. by destruct l. Qed.

End ValidateFacts.

(** C3: [validate] returns nil exactly when a coordinate differs from zero or
    the place identifier is not empty; a place identifier alone is enough;
    the error is [errLatLngOrPlaceIdRequire], returned exactly when both
    coordinates compare equal to zero and the place identifier is empty. *)
Theorem validate_spec (n : ReverseGeocodeCall) :
  (validate n = None ↔
     (F64.ne (lat n) F64.zero = true ∨ F64.ne (lng n) F64.zero = true) ∨ PlaceId n ≠ "")
  ∧ (PlaceId n ≠ "" → validate n = None)
  ∧ (validate n = Some errLatLngOrPlaceIdRequire ↔
       F64.ne (lat n) F64.zero = false ∧ F64.ne (lng n) F64.zero = false ∧ PlaceId n = "")
  ∧ (validate n = None ∨ validate n = Some errLatLngOrPlaceIdRequire).
Proof.
  unfold validate.
  destruct (F64.ne (lat n) F64.zero), (F64.ne (lng n) F64.zero);
    destruct (PlaceId n) as [|c p]; cbn; repeat split; intros; naive_solver.
Qed.

(** ** The shape of [%f] *)

Section FormatFacts.

Lemma pretty_N_go_length (k : nat) (x : N) (s : string) :
  (x < 10 ^ N.of_nat k)%N →
  (String.length (pretty_N_go x s) ≤ String.length s + k)%nat.
Proof.
  revert x s. induction k as [|k IH]; intros x s Hx.
  - assert (x = 0%N) as -> by (cbn in Hx; lia). rewrite pretty_N_go_0. lia.
  - destruct (decide (x = 0%N)) as [->|Hne].
    + rewrite pretty_N_go_0. lia.
    + rewrite pretty_N_go_step by lia.
      etrans; [apply IH|cbn; lia].
      rewrite Nat2N.inj_succ, N.pow_succ_r' in Hx.
      apply N.Div0.div_lt_upper_bound. lia.
Qed.

Lemma itoa_length (n : Z) : 0 ≤ n < 10 ^ 6 → (String.length (Fmt.itoa n) ≤ 6)%nat.
Proof.
  intros Hn. unfold Fmt.itoa, pretty, pretty_Z.
  destruct n as [|p|p]; [cbn; lia| |lia].
  unfold pretty, pretty_positive, pretty, pretty_N.
  case_decide; [cbn; lia|].
  apply (pretty_N_go_length 6 (N.pos p) ""). cbn. lia.
Qed.

Lemma zeros_length (n : nat) : String.length (Fmt.zeros n) = n.
Proof. induction n as [|n IH]; [done|]. cbn. by rewrite IH. Qed.

Lemma pad_left_length (n : Z) : 0 ≤ n < 10 ^ 6 → String.length (Fmt.pad_left 6 n) = 6%nat.
Proof.
  intros Hn. unfold Fmt.pad_left. rewrite str_app_length, zeros_length.
  pose proof (itoa_length n Hn). lia.
Qed.

(** A zero or finite number is printed with exactly six digits after the
    point. *)
Lemma sprintf_f_six_decimals (x : float64) :
  (∃ s, x = S754_zero s) ∨ (∃ s m e, x = S754_finite s m e) →
  ∃ int frac, Fmt.sprintf_f x = int +:+ "." +:+ frac ∧ String.length frac = 6%nat.
Proof.
  intros [[s ->]|(s & m & e & ->)].
  - exists ((if s then "-" else "") +:+ "0"), "000000". by destruct s.
  - exists ((if s then "-" else "") +:+ Fmt.itoa (Fmt.round6 m e / 10 ^ 6)),
           (Fmt.pad_left 6 (Fmt.round6 m e `mod` 10 ^ 6)).
    split; [cbn [Fmt.sprintf_f]; by rewrite !str_app_assoc|].
    apply pad_left_length, Z.mod_pos_bound. lia.
Qed.

End FormatFacts.

(** ** The decimal digits of [%f] *)

Section DecimalFacts.

Lemma pretty_N_char_digit (d : N) :
  (d < 10)%N →
  Decimal.is_digit (pretty_N_char d) = true
  ∧ Z.of_N (N_of_ascii (pretty_N_char d)) - 48 = Z.of_N d
  ∧ (d ≠ 0%N → pretty_N_char d ≠ "0"%char).
Proof.
  intros Hd.
  assert (d = 0 ∨ d = 1 ∨ d = 2 ∨ d = 3 ∨ d = 4 ∨ d = 5 ∨ d = 6 ∨ d = 7 ∨ d = 8 ∨ d = 9)%N
    as Hcases by lia.
  decompose [or] Hcases; subst d; by vm_compute.
Qed.

Lemma digits_value_app (a b : string) :
  Decimal.digits_value (a +:+ b)
  = Decimal.digits_value a * 10 ^ Z.of_nat (String.length b) + Decimal.digits_value b.
Proof.
  induction a as [|c a IH]; [change ("" +:+ b) with b; cbn; lia|].
  rewrite str_app_cons. cbn [Decimal.digits_value String.length].
  rewrite IH, str_app_length, Nat2Z.inj_add, Z.pow_add_r by lia. ring.
Qed.

(** The digits [pretty_N_go] puts in front of [s] are those of [x]. *)
Lemma pretty_N_go_value (x : N) (s : string) :
  Decimal.digits_value (pretty_N_go x s)
  = Z.of_N x * 10 ^ Z.of_nat (String.length s) + Decimal.digits_value s.
Proof.
  revert s. induction x as [x IH] using (well_founded_induction N.lt_wf_0). intros s.
  destruct (decide (x = 0%N)) as [->|Hne].
  - rewrite pretty_N_go_0. lia.
  - rewrite pretty_N_go_step by lia.
    rewrite IH by (apply N.div_lt; lia).
    cbn [Decimal.digits_value String.length].
    destruct (pretty_N_char_digit (x `mod` 10)) as (_ & -> & _);
      [apply N.mod_lt; lia|].
    rewrite Nat2Z.inj_succ, Z.pow_succ_r by lia.
    rewrite N2Z.inj_div, N2Z.inj_mod.
    pose proof (Z.div_mod (Z.of_N x) 10 ltac:(lia)) as Hdm.
    change (Z.of_N 10) with 10. nia.
Qed.

Lemma pretty_N_go_digits (x : N) (s : string) :
  URL.all_chars Decimal.is_digit s = true →
  URL.all_chars Decimal.is_digit (pretty_N_go x s) = true.
Proof.
  revert s. induction x as [x IH] using (well_founded_induction N.lt_wf_0). intros s Hs.
  destruct (decide (x = 0%N)) as [->|Hne].
  - by rewrite pretty_N_go_0.
  - rewrite pretty_N_go_step by lia. apply IH; [apply N.div_lt; lia|].
    cbn [URL.all_chars]. rewrite Hs, andb_true_r.
    apply pretty_N_char_digit, N.mod_lt. lia.
Qed.

(** A positive number is printed without a leading zero. *)
Lemma pretty_N_go_canonical (x : N) (s : string) :
  (0 < x)%N → ∃ c rest, pretty_N_go x s = String c rest ∧ c ≠ "0"%char.
Proof.
  revert s. induction x as [x IH] using (well_founded_induction N.lt_wf_0). intros s Hx.
  rewrite pretty_N_go_step by lia.
  destruct (decide (x `div` 10 = 0)%N) as [Hq|Hq].
  - rewrite Hq, pretty_N_go_0. eexists _, _. split; [done|].
    apply pretty_N_char_digit; [apply N.mod_lt; lia|].
    pose proof (N.div_mod x 10 ltac:(lia)). lia.
  - apply IH; [apply N.div_lt; lia|]. by apply N.neq_0_lt_0.
Qed.

Lemma itoa_printed (n : Z) :
  0 ≤ n →
  Decimal.digits_value (Fmt.itoa n) = n
  ∧ URL.all_chars Decimal.is_digit (Fmt.itoa n) = true
  ∧ Decimal.canonical (Fmt.itoa n) = true.
Proof.
  intros Hn. unfold Fmt.itoa, pretty, pretty_Z.
  destruct n as [|p|p]; [done| |lia].
  unfold pretty, pretty_positive, pretty, pretty_N.
  case_decide; [done|]. split_and!.
  - rewrite pretty_N_go_value. cbn. lia.
  - by apply pretty_N_go_digits.
  - destruct (pretty_N_go_canonical (N.pos p) "") as (c & rest & -> & Hc); [lia|].
    cbn. destruct rest; [done|]. by destruct (Ascii.eqb_spec c "0").
Qed.

Lemma zeros_printed (k : nat) :
  Decimal.digits_value (Fmt.zeros k) = 0
  ∧ URL.all_chars Decimal.is_digit (Fmt.zeros k) = true.
Proof.
  induction k as [|k [IHv IHd]]; [done|].
  cbn [Fmt.zeros Decimal.digits_value URL.all_chars]. rewrite IHv, IHd. split; [|done].
  change (Z.of_N (N_of_ascii "0")) with 48. lia.
Qed.

Lemma pad_left_printed (n : Z) :
  0 ≤ n →
  Decimal.digits_value (Fmt.pad_left 6 n) = n
  ∧ URL.all_chars Decimal.is_digit (Fmt.pad_left 6 n) = true.
Proof.
  intros Hn. unfold Fmt.pad_left.
  destruct (itoa_printed n Hn) as (Hv & Hd & _).
  destruct (zeros_printed (6 - String.length (Fmt.itoa n))) as [Hzv Hzd].
  rewrite digits_value_app, all_chars_app, Hzv, Hzd, Hv, Hd. split; [lia|done].
Qed.

(** [round6] rounds to the nearest integer, a tie to the even one. *)
Lemma round6_nearest (m : positive) (e : Z) : Decimal.nearest6 m e (Fmt.round6 m e).
Proof.
  unfold Decimal.nearest6, Fmt.round6.
  destruct (Z.leb_spec 0 e) as [He|He]; [ring|].
  assert (0 < 2 ^ (- e)) as Hd by (apply Z.pow_pos_nonneg; lia).
  set (d := 2 ^ (- e)) in *. set (x := Z.pos m * 10 ^ 6).
  pose proof (Z.div_mod x d ltac:(lia)) as Hdm.
  pose proof (Z.mod_pos_bound x d Hd) as Hr.
  set (q := x `div` d) in *. set (r := x `mod` d) in *.
  destruct (Z.compare_spec (2 * r) d) as [Heq|Hlt|Hgt].
  - destruct (Z.even q) eqn:Hev.
    + split; [lia|done].
    + split; [lia|]. intros _. rewrite Z.even_add, Hev. done.
  - split; lia.
  - split; lia.
Qed.

Lemma round6_nonneg (m : positive) (e : Z) : 0 ≤ Fmt.round6 m e.
Proof.
  unfold Fmt.round6. destruct (Z.leb_spec 0 e) as [He|He].
  - apply Z.mul_nonneg_nonneg; [lia|]. apply Z.pow_nonneg. lia.
  - assert (0 < 2 ^ (- e)) as Hd by (apply Z.pow_pos_nonneg; lia).
    assert (0 ≤ (Z.pos m * 10 ^ 6) `div` 2 ^ (- e)) by (apply Z.div_pos; lia).
    destruct (_ ?= _); [destruct (Z.even _)|..]; lia.
Qed.

(** What [sprintf_f] prints is the number in the format [%f]. *)
Lemma sprintf_f_printed (x : float64) : Decimal.printed_f x (Fmt.sprintf_f x).
Proof.
  destruct x as [sg|sg| |sg m e]; [done..|].
  cbn [Decimal.printed_f Fmt.sprintf_f].
  pose proof (round6_nonneg m e) as Hn. pose proof (round6_nearest m e) as Hnear.
  set (n := Fmt.round6 m e) in *.
  assert (0 ≤ n `div` 10 ^ 6) as Hq by (apply Z.div_pos; lia).
  pose proof (Z.mod_pos_bound n (10 ^ 6) ltac:(lia)) as Hr.
  destruct (itoa_printed _ Hq) as (Hiv & Hid & Hic).
  destruct (pad_left_printed (n `mod` 10 ^ 6)) as (Hfv & Hfd); [lia|].
  exists (Fmt.itoa (n `div` 10 ^ 6)), (Fmt.pad_left 6 (n `mod` 10 ^ 6)).
  split_and!; [done|by apply pad_left_length|done..|].
  rewrite Hiv, Hfv.
  replace (n `div` 10 ^ 6 * 10 ^ 6 + n `mod` 10 ^ 6) with n; [done|].
  pose proof (Z.div_mod n (10 ^ 6) ltac:(lia)). lia.
Qed.

End DecimalFacts.

(** ** The query string *)

Section QueryStringFacts.

Lemma query_Some (h : gmap addr Service) (r : ReverseGeocodeCall) (s : Service) :
  h !! service r = Some s →
  query h r = Some (Fmt.Join (URL.render <$> URL.pairs (query_values s r)) "&").
Proof. intros Hs. unfold query. by rewrite Hs, Encode_pairs. Qed.

Lemma elem_of_param_if (b : bool) (k x : string) (p : string * string) :
  p ∈ param_if b k x ↔ b = true ∧ p = (k, x).
Proof.
  destruct b; cbn.
  - rewrite list_elem_of_singleton. naive_solver.
  - split; [by intros ?%not_elem_of_nil|naive_solver].
Qed.

(** Membership in the parameter list, key by key. *)
Lemma elem_of_params (s : Service) (r : ReverseGeocodeCall) (k x : string) :
  (k, x) ∈ params s r ↔
    (k = "key" ∧ x = key s)
    ∨ (Language r ≠ "" ∧ k = "language" ∧ x = Language r)
    ∨ (has_coords r = true ∧ k = "latlng" ∧ x = latlng_string (lat r) (lng r))
    ∨ (LocationType r ≠ [] ∧ k = "location_type" ∧ x = Fmt.Join (LocationType r) "|")
    ∨ (PlaceId r ≠ "" ∧ k = "place_id" ∧ x = Language r)
    ∨ (ResultType r ≠ [] ∧ k = "result_type" ∧ x = Fmt.Join (ResultType r) "|").
Proof.
  unfold params, params_tail.
  rewrite elem_of_cons, !elem_of_app, !elem_of_param_if.
  rewrite !length_pos, !str_nonempty_true, !pair_equal_spec. tauto.
Qed.

Lemma params_keys_sorted (s : Service) (r : ReverseGeocodeCall) :
  StronglySorted str_lt (fst <$> params s r).
Proof.
  unfold params, params_tail.
  destruct (str_nonempty (Language r)), (has_coords r),
           (0 <? length (LocationType r))%nat, (str_nonempty (PlaceId r)),
           (0 <? length (ResultType r))%nat; cbn;
    repeat (constructor; [|repeat (constructor; [reflexivity|]); constructor]);
    constructor.
Qed.

Lemma all_chars_impl (P Q : ascii → bool) (s : string) :
  (∀ c, P c = true → Q c = true) → URL.all_chars P s = true → URL.all_chars Q s = true.
Proof.
  intros HPQ. induction s as [|c s IH]; [done|]. cbn.
  rewrite !andb_true_iff. intros [??]. auto.
Qed.

Lemma render_bytes (p : string * string) : URL.all_chars query_byte (URL.render p) = true.
Proof.
  unfold URL.render. rewrite !all_chars_app, !andb_true_iff. split_and!; [|done|].
  all: apply (all_chars_impl URL.query_safe); [|apply QueryEscape_safe].
  all: intros c Hc; unfold query_byte; by rewrite Hc.
Qed.

Lemma Join_render_bytes (l : list (string * string)) :
  URL.all_chars query_byte (Fmt.Join (URL.render <$> l) "&") = true.
Proof.
  induction l as [|p [|p' l] IH]; [done|apply render_bytes|].
  change (URL.render <$> p :: p' :: l)
    with (URL.render p :: URL.render p' :: (URL.render <$> l)).
  rewrite Join_cons, !all_chars_app, render_bytes. cbn [andb].
  change (URL.render p' :: (URL.render <$> l)) with (URL.render <$> p' :: l).
  by rewrite IH.
Qed.

(** The first pair of a query string and what follows it. *)
Lemma Join_render_head (k x : string) (l : list (string * string)) :
  ∃ rest, Fmt.Join (URL.render <$> (k, x) :: l) "&"
          = URL.QueryEscape k +:+ "=" +:+ URL.QueryEscape x +:+ rest
          ∧ (rest = "" ∨ ∃ rest', rest = "&" +:+ rest').
Proof.
  destruct l as [|p l].
  - exists "". split; [|by left]. by rewrite str_app_nil_r.
  - exists ("&" +:+ Fmt.Join (URL.render <$> p :: l) "&"). split; [|eauto].
    change (URL.render <$> (k, x) :: p :: l)
      with (URL.render (k, x) :: URL.render p :: (URL.render <$> l)).
    rewrite Join_cons. unfold URL.render at 1. cbn [fst snd].
    by rewrite !str_app_assoc.
Qed.

Lemma query_values_lookup_key (s : Service) (r : ReverseGeocodeCall) :
  query_values s r !! "key" = Some [key s].
Proof.
  unfold query_values, add_if, URL.Add, URL.Values_Get. rewrite !append_each_id.
  repeat case_match; by simplify_map_eq.
Qed.

Lemma query_values_lookup_latlng (s : Service) (r : ReverseGeocodeCall) :
  query_values s r !! "latlng"
  = if has_coords r then Some [latlng_string (lat r) (lng r)] else None.
Proof.
  unfold query_values, add_if, URL.Add, URL.Values_Get, has_coords.
  rewrite !append_each_id.
  repeat case_match; by simplify_map_eq.
Qed.

Lemma query_values_lookup_place_id (s : Service) (r : ReverseGeocodeCall) :
  query_values s r !! "place_id"
  = if str_nonempty (PlaceId r) then Some [Language r] else None.
Proof.
  unfold query_values, add_if, URL.Add, URL.Values_Get. rewrite !append_each_id.
  repeat case_match; by simplify_map_eq.
Qed.

Lemma query_values_lookup_result_type (s : Service) (r : ReverseGeocodeCall) :
  query_values s r !! "result_type"
  = if (0 <? length (ResultType r))%nat then Some [Fmt.Join (ResultType r) "|"] else None.
Proof.
  unfold query_values, add_if, URL.Add, URL.Values_Get. rewrite !append_each_id.
  repeat case_match; by simplify_map_eq.
Qed.

Lemma query_values_lookup_location_type (s : Service) (r : ReverseGeocodeCall) :
  query_values s r !! "location_type"
  = if (0 <? length (LocationType r))%nat
    then Some [Fmt.Join (LocationType r) "|"] else None.
Proof.
  unfold query_values, add_if, URL.Add, URL.Values_Get. rewrite !append_each_id.
  repeat case_match; by simplify_map_eq.
Qed.

Lemma query_values_key_only (s s' : Service) (r : ReverseGeocodeCall) :
  key s = key s' → query_values s r = query_values s' r.
Proof. intros Hk. unfold query_values. by rewrite Hk. Qed.

End QueryStringFacts.

(** ** Decoding what [QueryEscape] and [Encode] write *)

Section DecodeFacts.

Lemma QueryUnescape_escape_byte (c : ascii) (t : string) :
  Decode.QueryUnescape (URL.escape_byte c +:+ t) = String c <$> Decode.QueryUnescape t.
Proof. destruct c as [[] [] [] [] [] [] [] []]; reflexivity. Qed.

(** Unescaping gives back the string that was escaped. *)
Lemma QueryUnescape_QueryEscape (s : string) :
  Decode.QueryUnescape (URL.QueryEscape s) = Some s.
Proof.
  induction s as [|c s IH]; [done|].
  cbn [URL.QueryEscape]. by rewrite QueryUnescape_escape_byte, IH.
Qed.

Lemma Cut_app (P : ascii → bool) (sep : ascii) (a b : string) :
  P sep = false → URL.all_chars P a = true →
  Decode.Cut sep (a +:+ String sep b) = (a, b).
Proof.
  intros Hsep. induction a as [|c a IH]; intros Ha.
  - change ("" +:+ String sep b) with (String sep b). cbn. by rewrite Ascii.eqb_refl.
  - cbn in Ha. apply andb_true_iff in Ha as [Hc Ha].
    rewrite str_app_cons. cbn [Decode.Cut]. rewrite (IH Ha).
    destruct (Ascii.eqb_spec c sep) as [->|]; [congruence|done].
Qed.

Lemma segments_none (P : ascii → bool) (sep : ascii) (a : string) :
  P sep = false → URL.all_chars P a = true → Decode.segments sep a = [a].
Proof.
  intros Hsep. induction a as [|c a IH]; intros Ha; [done|].
  cbn in Ha. apply andb_true_iff in Ha as [Hc Ha].
  cbn [Decode.segments]. rewrite (IH Ha).
  destruct (Ascii.eqb_spec c sep) as [->|]; [congruence|done].
Qed.

Lemma segments_app (P : ascii → bool) (sep : ascii) (a b : string) :
  P sep = false → URL.all_chars P a = true →
  Decode.segments sep (a +:+ String sep b) = a :: Decode.segments sep b.
Proof.
  intros Hsep. induction a as [|c a IH]; intros Ha.
  - change ("" +:+ String sep b) with (String sep b). cbn [Decode.segments].
    by rewrite Ascii.eqb_refl.
  - cbn in Ha. apply andb_true_iff in Ha as [Hc Ha].
    rewrite str_app_cons. cbn [Decode.segments]. rewrite (IH Ha).
    destruct (Ascii.eqb_spec c sep) as [->|]; [congruence|done].
Qed.

Lemma render_no_amp (p : string * string) :
  URL.all_chars (fun c => URL.query_safe c || Ascii.eqb c "=") (URL.render p) = true.
Proof.
  unfold URL.render. rewrite !all_chars_app, !andb_true_iff. split_and!; [|done|].
  all: apply (all_chars_impl URL.query_safe); [|apply QueryEscape_safe].
  all: by intros c ->.
Qed.

Lemma parse_pair_render (p : string * string) : Decode.parse_pair (URL.render p) = Some p.
Proof.
  destruct p as [k v]. unfold Decode.parse_pair, URL.render. cbn [fst snd].
  change ("=" +:+ URL.QueryEscape v) with (String "=" (URL.QueryEscape v)).
  rewrite (Cut_app URL.query_safe) by (done || apply QueryEscape_safe).
  by rewrite !QueryUnescape_QueryEscape.
Qed.

Lemma segments_Join_render (l : list (string * string)) :
  l ≠ [] → Decode.segments "&" (Fmt.Join (URL.render <$> l) "&") = URL.render <$> l.
Proof.
  induction l as [|p [|p' l] IH]; intros Hne; [done| |].
  - apply (segments_none (fun c => URL.query_safe c || Ascii.eqb c "="));
      [done|apply render_no_amp].
  - change (URL.render <$> p :: p' :: l)
      with (URL.render p :: URL.render p' :: (URL.render <$> l)).
    rewrite Join_cons.
    change (URL.render p' :: (URL.render <$> l)) with (URL.render <$> p' :: l).
    change ("&" +:+ Fmt.Join (URL.render <$> p' :: l) "&")
      with (String "&" (Fmt.Join (URL.render <$> p' :: l) "&")).
    rewrite (segments_app (fun c => URL.query_safe c || Ascii.eqb c "="))
      by (done || apply render_no_amp).
    by rewrite IH.
Qed.

(** Parsing the [&]-join of rendered pairs gives the pairs back. *)
Lemma parse_query_Join_render (l : list (string * string)) :
  Decode.parse_query (Fmt.Join (URL.render <$> l) "&") = Some l.
Proof.
  destruct (decide (l = [])) as [->|Hne]; [done|].
  unfold Decode.parse_query. rewrite segments_Join_render by done.
  assert (filter (fun seg => seg ≠ "") (URL.render <$> l) = URL.render <$> l) as ->.
  { clear Hne. induction l as [|p l IH]; [done|]. cbn [fmap list_fmap].
    rewrite filter_cons_True by apply render_nonempty. f_equal. apply IH. }
  apply mapM_Some. clear Hne. induction l as [|p l IH]; constructor; [|done].
  apply parse_pair_render.
Qed.

Lemma Join_render_inj (l1 l2 : list (string * string)) :
  Fmt.Join (URL.render <$> l1) "&" = Fmt.Join (URL.render <$> l2) "&" → l1 = l2.
Proof.
  intros Heq. apply (f_equal Decode.parse_query) in Heq.
  rewrite !parse_query_Join_render in Heq. by injection Heq.
Qed.

End DecodeFacts.

(** C8: whatever optional fields are set, the query string starts with the
    parameter [key], whose value is the (escaped) API key of the service, and
    no other value is written under [key]. *)
Theorem query_key (h : gmap addr Service) (r : ReverseGeocodeCall) (s : Service) :
  h !! service r = Some s →
  (∃ rest, query h r = Some ("key=" +:+ URL.QueryEscape (key s) +:+ rest)
           ∧ (rest = "" ∨ ∃ rest', rest = "&" +:+ rest'))
  ∧ query_values s r !! "key" = Some [key s]
  ∧ (∀ x, ("key", x) ∈ URL.pairs (query_values s r) ↔ x = key s).
Proof.
  intros Hs. split_and!.
  - rewrite (query_Some _ _ _ Hs), pairs_query_values. unfold params.
    destruct (Join_render_head "key" (key s) (params_tail r)) as (rest & Hrest & Hsep).
    exists rest. split; [|done]. exact (f_equal Some Hrest).
  - apply query_values_lookup_key.
  - intros x. rewrite pairs_query_values, elem_of_params. naive_solver.
Qed.

(** C2: when the place identifier is not empty the query string has a
    parameter [place_id], and the one value written under it is the
    [Language] field of the call, whatever the place identifier is. *)
Theorem query_place_id (h : gmap addr Service) (r : ReverseGeocodeCall) (s : Service) :
  h !! service r = Some s →
  PlaceId r ≠ "" →
  query h r = Some (Fmt.Join (URL.render <$> URL.pairs (query_values s r)) "&")
  ∧ query_values s r !! "place_id" = Some [Language r]
  ∧ (∀ x, ("place_id", x) ∈ URL.pairs (query_values s r) ↔ x = Language r)
  ∧ URL.render ("place_id", Language r) = "place_id=" +:+ URL.QueryEscape (Language r).
Proof.
  intros Hs Hp. split_and!.
  - by apply query_Some.
  - rewrite query_values_lookup_place_id.
    by apply str_nonempty_true in Hp as ->.
  - intros x. rewrite pairs_query_values, elem_of_params.
    split; [|by intros ->; eauto 10]. intros H.
    decompose [and or] H; try discriminate; auto.
  - reflexivity.
Qed.

(** C6 (amended): the query string has a parameter [latlng] exactly when a
    coordinate differs from zero, and none when both are zero.  Its value is
    the two coordinates printed with [%f,%f]: a finite coordinate as its
    sign, its integer part, a point and exactly six digits, the value rounded
    to the sixth decimal (to the nearest, a tie to the even digit); a NaN or
    an infinity, which differ from zero too, as [NaN], [+Inf] or [-Inf]. *)
Theorem query_latlng (h : gmap addr Service) (r : ReverseGeocodeCall) (s : Service) :
  h !! service r = Some s →
  query h r = Some (Fmt.Join (URL.render <$> URL.pairs (query_values s r)) "&")
  ∧ (∀ x, ("latlng", x) ∈ URL.pairs (query_values s r) ↔
          (F64.ne (lat r) F64.zero = true ∨ F64.ne (lng r) F64.zero = true)
          ∧ x = Fmt.sprintf_f (lat r) +:+ "," +:+ Fmt.sprintf_f (lng r))
  ∧ Decimal.printed_f (lat r) (Fmt.sprintf_f (lat r))
  ∧ Decimal.printed_f (lng r) (Fmt.sprintf_f (lng r))
  ∧ (F64.ne (lat r) F64.zero = false ∧ F64.ne (lng r) F64.zero = false →
     query_values s r !! "latlng" = None)
  ∧ URL.render ("latlng", Fmt.sprintf_f (lat r) +:+ "," +:+ Fmt.sprintf_f (lng r))
    = "latlng=" +:+ URL.QueryEscape (Fmt.sprintf_f (lat r)) +:+ "%2C"
      +:+ URL.QueryEscape (Fmt.sprintf_f (lng r)).
Proof.
  intros Hs. split_and!.
  - by apply query_Some.
  - intros x. rewrite pairs_query_values, elem_of_params.
    unfold has_coords, latlng_string. rewrite orb_true_iff. split.
    + intros H. decompose [and or] H; try discriminate; auto.
    + intros [? ->]. eauto 10.
  - apply sprintf_f_printed.
  - apply sprintf_f_printed.
  - intros [Hla Hln]. rewrite query_values_lookup_latlng.
    unfold has_coords. by rewrite Hla, Hln.
  - unfold URL.render. cbn [fst snd]. by rewrite !QueryEscape_app.
Qed.

(** C6 as first stated fails at a NaN: it differs from zero, so [latlng] is
    written, and it is printed as [NaN], with no decimals. *)
Lemma query_latlng_nan :
  F64.ne (lat Edge.call_nan) F64.zero = true
  ∧ query Sample.heap Edge.call_nan = Some "key=K&latlng=NaN%2C0.000000"
  ∧ ("latlng", "NaN,0.000000") ∈ URL.pairs (query_values Sample.service_K Edge.call_nan)
  ∧ ¬ (∃ int frac, Fmt.sprintf_f (lat Edge.call_nan) = int +:+ "." +:+ frac
                   ∧ String.length frac = 6%nat).
Proof.
  split_and!; [done|by vm_compute| |].
  - apply elem_of_pairs. vm_compute. constructor.
  - intros (int & frac & H & _). change (Fmt.sprintf_f (lat Edge.call_nan)) with "NaN" in H.
    destruct int as [|a [|b [|c [|d int]]]]; rewrite ?str_app_cons in H; try discriminate H.
    all: injection H as ? ? ?; try discriminate.
Qed.

(** C7: the query string has a parameter [result_type] (and likewise
    [location_type]) exactly when the filter list is not empty; its value is
    the elements joined with a pipe, which is written percent-encoded as
    [%7C] between the escaped elements. *)
Theorem query_filters (h : gmap addr Service) (r : ReverseGeocodeCall) (s : Service) :
  h !! service r = Some s →
  query h r = Some (Fmt.Join (URL.render <$> URL.pairs (query_values s r)) "&")
  ∧ (∀ x, ("result_type", x) ∈ URL.pairs (query_values s r) ↔
          ResultType r ≠ [] ∧ x = Fmt.Join (ResultType r) "|")
  ∧ (∀ x, ("location_type", x) ∈ URL.pairs (query_values s r) ↔
          LocationType r ≠ [] ∧ x = Fmt.Join (LocationType r) "|")
  ∧ URL.render ("result_type", Fmt.Join (ResultType r) "|")
    = "result_type=" +:+ Fmt.Join (URL.QueryEscape <$> ResultType r) "%7C"
  ∧ URL.render ("location_type", Fmt.Join (LocationType r) "|")
    = "location_type=" +:+ Fmt.Join (URL.QueryEscape <$> LocationType r) "%7C".
Proof.
  intros Hs. split_and!.
  - by apply query_Some.
  - intros x. rewrite pairs_query_values, elem_of_params. split; [|by intros [? ->]; eauto 10].
    intros H. decompose [and or] H; try discriminate; auto.
  - intros x. rewrite pairs_query_values, elem_of_params. split; [|by intros [? ->]; eauto 10].
    intros H. decompose [and or] H; try discriminate; auto.
  - unfold URL.render. cbn [fst snd]. by rewrite QueryEscape_Join.
  - unfold URL.render. cbn [fst snd]. by rewrite QueryEscape_Join.
Qed.

(** C10 (amended): the query string is a function of the API key and of
    the six fields of the call: two calls that agree on them, the
    coordinates bit for bit, get the same string, and two calls get the same
    string exactly when they have the same pairs.  The string is the
    [&]-join of [key=value] pairs whose keys are strictly increasing in byte
    order; keys and values are percent-encoded by [QueryEscape]: unescaping
    gives each of them back, parsing the string gives back the pairs, and
    only unreserved bytes, [%], [+], [&] and [=] occur in it. *)
Theorem query_deterministic (h1 h2 : gmap addr Service) (r1 r2 : ReverseGeocodeCall)
    (s1 s2 : Service) :
  h1 !! service r1 = Some s1 →
  h2 !! service r2 = Some s2 →
  (key s1 = key s2 →
   lat r1 = lat r2 → lng r1 = lng r2 →
   PlaceId r1 = PlaceId r2 → Language r1 = Language r2 →
   ResultType r1 = ResultType r2 → LocationType r1 = LocationType r2 →
   query h1 r1 = query h2 r2)
  ∧ (query h1 r1 = query h2 r2
     ↔ URL.pairs (query_values s1 r1) = URL.pairs (query_values s2 r2))
  ∧ (∃ q, query h1 r1 = Some q
          ∧ q = Fmt.Join ((fun p => URL.QueryEscape p.1 +:+ "=" +:+ URL.QueryEscape p.2)
                            <$> URL.pairs (query_values s1 r1)) "&"
          ∧ URL.all_chars query_byte q = true
          ∧ Decode.parse_query q = Some (URL.pairs (query_values s1 r1)))
  ∧ StronglySorted str_lt (fst <$> URL.pairs (query_values s1 r1))
  ∧ Forall (fun p => URL.all_chars URL.query_safe (URL.QueryEscape p.2) = true
                     ∧ Decode.QueryUnescape (URL.QueryEscape p.1) = Some p.1
                     ∧ Decode.QueryUnescape (URL.QueryEscape p.2) = Some p.2)
           (URL.pairs (query_values s1 r1)).
Proof.
  intros Hs1 Hs2. split_and!.
  - intros Hk Hla Hln Hp Hl Hr Ht. unfold query. rewrite Hs1, Hs2. do 2 f_equal.
    unfold query_values. by rewrite Hk, Hla, Hln, Hp, Hl, Hr, Ht.
  - rewrite (query_Some _ _ _ Hs1), (query_Some _ _ _ Hs2). split.
    + intros [= Heq]. by apply Join_render_inj.
    + by intros ->.
  - eexists. split; [by apply query_Some|]. split; [done|].
    split; [apply Join_render_bytes|apply parse_query_Join_render].
  - rewrite pairs_query_values. apply params_keys_sorted.
  - apply Forall_forall. intros p _.
    split_and!; [apply QueryEscape_safe|apply QueryUnescape_QueryEscape..].
Qed.

(** C10 as first stated fails at the two zeros: they compare equal in Go and
    are printed differently, so two calls with equal fields get different
    query strings. *)
Lemma query_signed_zero :
  F64.ne (lat Edge.call_plus_zero) (lat Edge.call_minus_zero) = false
  ∧ F64.ne (lng Edge.call_plus_zero) (lng Edge.call_minus_zero) = false
  ∧ service Edge.call_plus_zero = service Edge.call_minus_zero
  ∧ PlaceId Edge.call_plus_zero = PlaceId Edge.call_minus_zero
  ∧ Language Edge.call_plus_zero = Language Edge.call_minus_zero
  ∧ ResultType Edge.call_plus_zero = ResultType Edge.call_minus_zero
  ∧ LocationType Edge.call_plus_zero = LocationType Edge.call_minus_zero
  ∧ query Sample.heap Edge.call_plus_zero = Some "key=K&latlng=0.000000%2C1.000000"
  ∧ query Sample.heap Edge.call_minus_zero = Some "key=K&latlng=-0.000000%2C1.000000"
  ∧ query Sample.heap Edge.call_plus_zero ≠ query Sample.heap Edge.call_minus_zero.
Proof. split_and!; [by vm_compute..|]. vm_compute. intros [=]. Qed.

(** ** Running [Do] *)

Section DoFacts.

Variable Unmarshal : string → GeocodeResponse + error.

(** A call that passes validation asks the transport once, for the constant
    [baseURL] followed by the query string, then reads and closes the body. *)
Lemma run_Do_valid (h : gmap addr Service) (n : ReverseGeocodeCall) (s : Service)
    (q : string) (w : HTTP.World) :
  validate n = None →
  h !! service n = Some s →
  query h n = Some q →
  HTTP.run w (Do Unmarshal h n)
  = match HTTP.on_Get w (client s) (searchURL q) with
    | None => ([], None)
    | Some (inr err) =>
        ([existT _ (HTTP.Get (client s) (searchURL q))], Some (inr err))
    | Some (inl resp) =>
        (trace_of (client s) (searchURL q) (HTTP.RespBody resp),
         Some match HTTP.on_ReadAll w (HTTP.RespBody resp) with
              | inr err => inr err
              | inl body => handle_body Unmarshal resp body
              end)
    end.
Proof.
  intros Hv Hs Hq. unfold Do. rewrite Hv, Hq, Hs.
  cbn [HTTP.call HTTP.bind HTTP.run HTTP.answer]. fold (searchURL q).
  destruct (HTTP.on_Get w (client s) (searchURL q)) as [[resp|err]|]; [|done..].
  unfold HTTP.defer_Close. cbn [HTTP.call HTTP.bind HTTP.run HTTP.answer].
  by destruct (HTTP.on_ReadAll w (HTTP.RespBody resp)).
Qed.

(** [SetURL] changes neither the key nor the client of any service. *)
Lemma SetURL_lookup (p q : addr) (u : string) (h h' : gmap addr Service) :
  SetURL p u h = Some h' →
  (key <$> h' !! q) = (key <$> h !! q) ∧ (client <$> h' !! q) = (client <$> h !! q)
  ∧ (url <$> h' !! p) = Some u.
Proof.
  unfold SetURL. destruct (h !! p) as [s|] eqn:Hp; [|done]. intros [= <-].
  destruct (decide (p = q)) as [<-|Hne].
  - by rewrite lookup_insert_eq, Hp.
  - by rewrite lookup_insert_ne, lookup_insert_eq.
Qed.

Lemma SetURL_query (p : addr) (u : string) (h h' : gmap addr Service)
    (n : ReverseGeocodeCall) :
  SetURL p u h = Some h' → query h' n = query h n.
Proof.
  intros Hset. destruct (SetURL_lookup p (service n) u h h' Hset) as (Hk & _ & _).
  unfold query. destruct (h' !! service n) as [s'|], (h !! service n) as [s|];
    simplify_eq/=; [|done]. f_equal. f_equal. by apply query_values_key_only.
Qed.

(** [Do] never reads the [url] field: it behaves the same before and after
    [SetURL]. *)
Lemma Do_ignores_SetURL (p : addr) (u : string) (h h' : gmap addr Service)
    (n : ReverseGeocodeCall) :
  SetURL p u h = Some h' → Do Unmarshal h' n = Do Unmarshal h n.
Proof.
  intros Hset. destruct (SetURL_lookup p (service n) u h h' Hset) as (_ & Hc & _).
  unfold Do. rewrite (SetURL_query p u h h' n Hset).
  destruct (validate n) as [err|]; [done|]. destruct (query h n) as [q|]; [|done].
  destruct (h' !! service n) as [s'|], (h !! service n) as [s|]; simplify_eq/=; [|done].
  by rewrite Hc.
Qed.

End DoFacts.

(** C1: [Do] reads the constant [baseURL], not the [url] field that [SetURL]
    writes.  After [SetURL] with [http://localhost:8080] the field holds the
    new value, and the request still goes to the default endpoint. *)
Theorem Do_after_SetURL_requests_baseURL :
  SetURL Sample.svc "http://localhost:8080" Sample.heap = Some Sample.heap_local
  ∧ Sample.heap_local !! Sample.svc = Some Sample.service_local
  ∧ query Sample.heap_local Sample.call = Some "key=K&latlng=13.750000%2C100.500000"
  ∧ (HTTP.run (Sample.world 200 Sample.body_zero_results)
       (Do Sample.Unmarshal Sample.heap_local Sample.call)).1
    = trace_of (Some 0%nat)
        "https://maps.googleapis.com/maps/api/geocode/json?key=K&latlng=13.750000%2C100.500000"
        7%nat
  ∧ (HTTP.run (Sample.world 200 Sample.body_zero_results)
       (Do Sample.Unmarshal Sample.heap_local Sample.call)).1
    ≠ trace_of (Some 0%nat) "http://localhost:8080/json?key=K&latlng=13.750000%2C100.500000" 7%nat.
Proof. split_and!; [by vm_compute..|]. vm_compute. intros [=]. Qed.

(** C9: a call with both coordinates zero and no place identifier returns
    [errLatLngOrPlaceIdRequire] at once: the program is a bare return, and
    its run makes no call on the transport, whatever the heap, the decoder
    and the environment are. *)
Theorem Do_invalid (Unmarshal : string → GeocodeResponse + error)
    (h : gmap addr Service) (n : ReverseGeocodeCall) (w : HTTP.World) :
  F64.ne (lat n) F64.zero = false →
  F64.ne (lng n) F64.zero = false →
  PlaceId n = "" →
  validate n = Some errLatLngOrPlaceIdRequire
  ∧ Do Unmarshal h n = HTTP.Ret (inr errLatLngOrPlaceIdRequire)
  ∧ HTTP.run w (Do Unmarshal h n) = ([], Some (inr errLatLngOrPlaceIdRequire)).
Proof.
  intros Hla Hln Hp.
  assert (validate n = Some errLatLngOrPlaceIdRequire) as Hv.
  { unfold validate. by rewrite Hla, Hln, Hp. }
  unfold Do. by rewrite Hv.
Qed.

(** C5 (amended): when the transport answers with a status code other than
    200 and the body is read, [Do] fails with the error
    [bad resp <code>: <body>], the code in decimal and the body as it was
    read; the outcome is the same for every decoder, so the body is not
    decoded. *)
Theorem Do_bad_status (Unmarshal : string → GeocodeResponse + error)
    (h : gmap addr Service) (n : ReverseGeocodeCall) (s : Service) (q : string)
    (w : HTTP.World) (resp : HTTP.Response) (body : string) :
  validate n = None →
  h !! service n = Some s →
  query h n = Some q →
  HTTP.on_Get w (client s) (searchURL q) = Some (inl resp) →
  HTTP.on_ReadAll w (HTTP.RespBody resp) = inl body →
  HTTP.StatusCode resp ≠ 200 →
  HTTP.run w (Do Unmarshal h n)
  = (trace_of (client s) (searchURL q) (HTTP.RespBody resp),
     Some (inr (errorString
                  ("bad resp " +:+ Fmt.itoa (HTTP.StatusCode resp) +:+ ": " +:+ body)))).
Proof.
  intros Hv Hs Hq Hget Hread Hcode.
  rewrite (run_Do_valid Unmarshal h n s q w Hv Hs Hq), Hget, Hread.
  unfold handle_body, HTTP.StatusOK.
  by destruct (Z.eqb_spec (HTTP.StatusCode resp) 200).
Qed.

(** C5 as first stated fails when the body cannot be read: [Do] reads the
    body before it looks at the status, so a response with status 500 whose
    read fails gives the read error, which carries neither the code nor a
    body. *)
Lemma Do_bad_status_unread :
  HTTP.on_Get (Outage.world_cut 500) (client Sample.service_K)
    (searchURL "key=K&latlng=13.750000%2C100.500000")
  = Some (inl (HTTP.mkResponse 500 7%nat))
  ∧ HTTP.StatusCode (HTTP.mkResponse 500 7%nat) ≠ 200
  ∧ (HTTP.run (Outage.world_cut 500) (Do Sample.Unmarshal Sample.heap Sample.call)).2
    = Some (inr Outage.cut)
  ∧ ¬ (∃ body, (HTTP.run (Outage.world_cut 500)
                  (Do Sample.Unmarshal Sample.heap Sample.call)).2
               = Some (inr (bad_resp 500 body))).
Proof.
  split_and!; [done|done|by vm_compute|].
  intros [body H]. vm_compute in H. discriminate H.
Qed.

(** C4: when the transport answers 200 and the body decodes to [data], [Do]
    returns [data] exactly when its status is the string [OK]; for any other
    status it returns the API error carrying that status and the error
    message of [data]. *)
Theorem Do_status (Unmarshal : string → GeocodeResponse + error)
    (h : gmap addr Service) (n : ReverseGeocodeCall) (s : Service) (q : string)
    (w : HTTP.World) (resp : HTTP.Response) (body : string) (data : GeocodeResponse) :
  validate n = None →
  h !! service n = Some s →
  query h n = Some q →
  HTTP.on_Get w (client s) (searchURL q) = Some (inl resp) →
  HTTP.on_ReadAll w (HTTP.RespBody resp) = inl body →
  HTTP.StatusCode resp = 200 →
  Unmarshal body = inl data →
  ((HTTP.run w (Do Unmarshal h n)).2 = Some (inl data) ↔ Status data = "OK")
  ∧ (Status data ≠ "OK" →
     (HTTP.run w (Do Unmarshal h n)).2
     = Some (inr (apiErr {| api_Status := Status data;
                            api_Message := ErrorMessage data |})))
  ∧ (HTTP.run w (Do Unmarshal h n)).1
    = trace_of (client s) (searchURL q) (HTTP.RespBody resp).
Proof.
  intros Hv Hs Hq Hget Hread Hcode Hdec.
  rewrite (run_Do_valid Unmarshal h n s q w Hv Hs Hq), Hget, Hread.
  unfold handle_body, HTTP.StatusOK. rewrite Hcode, Hdec. cbn [Z.eqb Pos.eqb negb fst snd].
  destruct (String.eqb_spec (Status data) "OK") as [Heq|Hne]; cbn [negb].
  - by split_and!.
  - split_and!; [|done..]. split; [by intros [=]|done].
Qed.

(** ** The theorems at sample inputs *)

Example sprintf_f_examples :
  Fmt.sprintf_f (S754_finite false 55 (-2)) = "13.750000"
  ∧ Fmt.sprintf_f (S754_finite true 1 (-7)) = "-0.007812"
  ∧ Fmt.sprintf_f (S754_finite false 3 (-7)) = "0.023438"
  ∧ Fmt.sprintf_f (S754_finite false 1 (-30)) = "0.000000"
  ∧ Fmt.sprintf_f (S754_finite false 1 70) = "1180591620717411303424.000000"
  ∧ Fmt.sprintf_f Sample.lng_bkk = "100.500000"
  ∧ F64.valid Sample.lat_bkk = true ∧ F64.valid Sample.lng_bkk = true.
Proof. by vm_compute. Qed.

Example QueryEscape_examples :
  URL.QueryEscape "country|postal_code" = "country%7Cpostal_code"
  ∧ URL.QueryEscape "a b,c~d" = "a+b%2Cc~d".
Proof. by vm_compute. Qed.

Example Encode_example :
  URL.Encode (URL.Add "key" "K" (URL.Add "b" "2" (URL.Add "a" "1" (URL.Add "b" "1" ∅))))
  = "a=1&b=1&b=2&key=K".
Proof. by vm_compute. Qed.

Example query_examples :
  query Sample.heap Sample.call_filtered
  = Some ("key=K&language=th&latlng=13.750000%2C100.500000"
          +:+ "&location_type=ROOFTOP&result_type=country%7Cpostal_code")
  ∧ query Sample.heap Sample.call_place = Some "key=K&language=th&place_id=th"
  ∧ query Sample.heap Sample.call_empty = Some "key=K"
  ∧ query ∅ Sample.call = None.
Proof. by vm_compute. Qed.

Lemma query_place_id_witness :
  (∀ x, ("place_id", x) ∈ URL.pairs (query_values Sample.service_K Sample.call_place)
        ↔ x = "th")
  ∧ PlaceId Sample.call_place = "ChIJ82ENKDJgHTERIEjiXbIAAQE".
Proof.
  split; [|reflexivity].
  apply (query_place_id Sample.heap Sample.call_place Sample.service_K);
    [reflexivity|discriminate].
Defined.

Lemma query_latlng_witness :
  Sample.heap !! service Sample.call = Some Sample.service_K
  ∧ ("latlng", "13.750000,100.500000")
      ∈ URL.pairs (query_values Sample.service_K Sample.call).
Proof.
  split; [reflexivity|].
  destruct (query_latlng Sample.heap Sample.call Sample.service_K) as (_ & H & _);
    [reflexivity|].
  apply H. split; [left|]; reflexivity.
Defined.

Lemma query_filters_witness :
  URL.render ("result_type", Fmt.Join ["country"; "postal_code"] "|")
  = "result_type=country%7Cpostal_code".
Proof.
  apply (query_filters Sample.heap Sample.call_filtered Sample.service_K). reflexivity.
Defined.

Lemma query_key_witness :
  query_values Sample.service_K Sample.call_filtered !! "key" = Some ["K"].
Proof.
  apply (query_key Sample.heap Sample.call_filtered Sample.service_K). reflexivity.
Defined.

Lemma query_deterministic_witness :
  (Sample.heap !! service Sample.call_filtered = Some Sample.service_K
   ∧ Sample.heap_local !! service Sample.call_filtered = Some Sample.service_local)
  ∧ query Sample.heap Sample.call_filtered = query Sample.heap_local Sample.call_filtered.
Proof.
  split; [split; reflexivity|].
  destruct (query_deterministic Sample.heap Sample.heap_local
              Sample.call_filtered Sample.call_filtered
              Sample.service_K Sample.service_local) as (H & _); [reflexivity..|].
  apply H; reflexivity.
Defined.

Lemma Do_invalid_witness :
  HTTP.run (Sample.world 200 Sample.body_zero_results)
    (Do Sample.Unmarshal Sample.heap Sample.call_empty)
  = ([], Some (inr errLatLngOrPlaceIdRequire)).
Proof.
  apply (Do_invalid Sample.Unmarshal Sample.heap Sample.call_empty); reflexivity.
Defined.

Lemma Do_bad_status_witness :
  HTTP.run (Sample.world 500 "oops") (Do Sample.Unmarshal Sample.heap Sample.call)
  = (trace_of (Some 0%nat) (searchURL "key=K&latlng=13.750000%2C100.500000") 7%nat,
     Some (inr (errorString "bad resp 500: oops"))).
Proof.
  apply (Do_bad_status Sample.Unmarshal Sample.heap Sample.call Sample.service_K
           "key=K&latlng=13.750000%2C100.500000" (Sample.world 500 "oops")
           (HTTP.mkResponse 500 7%nat) "oops"); try reflexivity.
  cbn. lia.
Defined.

Lemma Do_status_witness :
  (HTTP.run (Sample.world 200 Sample.body_zero_results)
     (Do Sample.Unmarshal Sample.heap Sample.call)).2
  = Some (inr (apiErr {| api_Status := "ZERO_RESULTS"; api_Message := "" |})).
Proof.
  apply (Do_status Sample.Unmarshal Sample.heap Sample.call Sample.service_K
           "key=K&latlng=13.750000%2C100.500000"
           (Sample.world 200 Sample.body_zero_results)
           (HTTP.mkResponse 200 7%nat) Sample.body_zero_results Sample.zero_results);
    try reflexivity.
  discriminate.
Defined.

(** ** Services: allocation and the base URL *)

(** X1: [NewService] returns an address that was free, stores there a
    service with the given client and key and the default base URL, and
    leaves every service already in the heap as it was. *)
Theorem NewService_spec (c : HTTP.Client) (k : string) (h : gmap addr Service) :
  h !! (NewService c k h).1 = None
  ∧ (NewService c k h).2 !! (NewService c k h).1
    = Some {| client := c; key := k; url := baseURL |}
  ∧ (∀ q s, h !! q = Some s → (NewService c k h).2 !! q = Some s).
Proof.
  unfold NewService. cbn [fst snd].
  assert (h !! fresh (dom h) = None) as Hfresh.
  { apply not_elem_of_dom, is_fresh. }
  split_and!; [done|by rewrite lookup_insert_eq|].
  intros q s Hq. rewrite lookup_insert_ne; [done|]. intros <-. congruence.
Qed.

(** X2: [SetURL] panics exactly on a dangling receiver; otherwise it
    replaces the [url] field of that one service, keeps its client and key,
    and touches no other address. *)
Theorem SetURL_spec (p : addr) (u : string) (h : gmap addr Service) :
  (SetURL p u h = None ↔ h !! p = None)
  ∧ (∀ h', SetURL p u h = Some h' →
       (∃ s, h !! p = Some s
             ∧ h' !! p = Some {| client := client s; key := key s; url := u |})
       ∧ (∀ q, q ≠ p → h' !! q = h !! q)
       ∧ dom h' = dom h).
Proof.
  unfold SetURL. destruct (h !! p) as [s|] eqn:Hp.
  - split; [done|]. intros h' [= <-]. split_and!.
    + exists s. by rewrite lookup_insert_eq.
    + intros q Hq. by rewrite lookup_insert_ne.
    + rewrite dom_insert_L. apply elem_of_dom_2 in Hp. set_solver.
  - split; [done|]. by intros h' [=].
Qed.

(** X3: of two [SetURL] calls on the same service the later one decides:
    the heap is the one a single call with the later URL gives. *)
Theorem SetURL_twice (p : addr) (u1 u2 : string) (h h1 : gmap addr Service) :
  SetURL p u1 h = Some h1 →
  SetURL p u2 h1 = SetURL p u2 h ∧ is_Some (SetURL p u2 h1).
Proof.
  unfold SetURL. destruct (h !! p) as [s|] eqn:Hp; [|done]. intros [= <-].
  rewrite lookup_insert_eq. cbn [client key]. rewrite insert_insert_eq. eauto.
Qed.

Lemma SetURL_twice_witness :
  SetURL Sample.svc "http://localhost:8080" Sample.heap = Some Sample.heap_local
  ∧ SetURL Sample.svc baseURL Sample.heap_local = SetURL Sample.svc baseURL Sample.heap.
Proof.
  split; [reflexivity|].
  apply (SetURL_twice Sample.svc "http://localhost:8080" baseURL Sample.heap). reflexivity.
Defined.

(** ** The builder *)

(** X4: a call fresh from [ReverseGeocode] is rejected exactly when both
    coordinates are zeros, of either sign; any other pair, infinities and NaN
    included, passes validation. *)
Theorem validate_ReverseGeocode (p : addr) (la ln : float64) :
  (validate (ReverseGeocode p la ln) = Some errLatLngOrPlaceIdRequire
   ↔ (∃ s1, la = S754_zero s1) ∧ (∃ s2, ln = S754_zero s2))
  ∧ (validate (ReverseGeocode p la ln) = None
     ↔ ¬ ((∃ s1, la = S754_zero s1) ∧ (∃ s2, ln = S754_zero s2))).
Proof.
  rewrite <- !ne_zero_false. unfold validate, ReverseGeocode. cbn.
  destruct (F64.ne la F64.zero), (F64.ne ln F64.zero); cbn;
    intuition congruence.
Qed.

(** ** More on the query string *)

Section QueryMoreFacts.

Lemma query_values_lookup_language (s : Service) (r : ReverseGeocodeCall) :
  query_values s r !! "language"
  = if str_nonempty (Language r) then Some [Language r] else None.
Proof.
  unfold query_values, add_if, URL.Add, URL.Values_Get. rewrite !append_each_id.
  repeat case_match; by simplify_map_eq.
Qed.

Lemma query_values_PlaceId (s : Service) (r : ReverseGeocodeCall) (pid : string) :
  str_nonempty pid = str_nonempty (PlaceId r) →
  query_values s (set_PlaceId pid r) = query_values s r.
Proof. intros Hp. unfold query_values, set_PlaceId. cbn. by rewrite Hp. Qed.

Lemma str_nonempty_iff (a b : string) :
  (a = "" ↔ b = "") → str_nonempty a = str_nonempty b.
Proof. destruct a, b; cbn; intuition congruence. Qed.

Lemma count_char_app (c : ascii) (a b : string) :
  count_char c (a +:+ b) = (count_char c a + count_char c b)%nat.
Proof.
  induction a as [|x a IH]; [done|]. rewrite str_app_cons. cbn. rewrite IH. lia.
Qed.

Lemma count_char_none (P : ascii → bool) (c : ascii) (s : string) :
  P c = false → URL.all_chars P s = true → count_char c s = 0%nat.
Proof.
  intros Hc. induction s as [|x s IH]; [done|]. cbn.
  rewrite andb_true_iff. intros [Hx Hs]. rewrite (IH Hs).
  destruct (Ascii.eqb_spec x c) as [->|]; [congruence|done].
Qed.

Lemma count_amp_QueryEscape (x : string) : count_char "&" (URL.QueryEscape x) = 0%nat.
Proof. apply (count_char_none URL.query_safe); [done|apply QueryEscape_safe]. Qed.

Lemma count_eq_QueryEscape (x : string) : count_char "=" (URL.QueryEscape x) = 0%nat.
Proof. apply (count_char_none URL.query_safe); [done|apply QueryEscape_safe]. Qed.

Lemma count_render (p : string * string) :
  count_char "&" (URL.render p) = 0%nat ∧ count_char "=" (URL.render p) = 1%nat.
Proof.
  unfold URL.render.
  by rewrite !count_char_app, !count_amp_QueryEscape, !count_eq_QueryEscape.
Qed.

(** In the [&]-join of rendered pairs every [&] separates two pairs and
    every [=] belongs to one pair. *)
Lemma count_Join_render (l : list (string * string)) :
  l ≠ [] →
  (count_char "&" (Fmt.Join (URL.render <$> l) "&") + 1)%nat = length l
  ∧ count_char "=" (Fmt.Join (URL.render <$> l) "&") = length l.
Proof.
  induction l as [|p [|p' l] IH]; intros Hne; [done| |].
  - destruct (count_render p) as [Ha He]. cbn. rewrite Ha, He. done.
  - change (URL.render <$> p :: p' :: l)
      with (URL.render p :: URL.render p' :: (URL.render <$> l)).
    rewrite Join_cons, !count_char_app.
    change (URL.render p' :: (URL.render <$> l)) with (URL.render <$> p' :: l).
    destruct (count_render p) as [-> ->]. destruct IH as [IHa IHe]; [done|].
    rewrite IHe. cbn [length] in *. cbn [count_char Ascii.eqb Bool.eqb]. lia.
Qed.

Lemma length_param_if (b : bool) (k x : string) : (length (param_if b k x) ≤ 1)%nat.
Proof. destruct b; cbn; lia. Qed.

Lemma length_params (s : Service) (r : ReverseGeocodeCall) :
  (1 ≤ length (params s r) ≤ 6)%nat.
Proof.
  unfold params, params_tail. cbn [length]. rewrite !length_app.
  pose proof (length_param_if (str_nonempty (Language r)) "language" (Language r)).
  pose proof (length_param_if (has_coords r) "latlng" (latlng_string (lat r) (lng r))).
  pose proof (length_param_if (0 <? length (LocationType r))%nat "location_type"
                (Fmt.Join (LocationType r) "|")).
  pose proof (length_param_if (str_nonempty (PlaceId r)) "place_id" (Language r)).
  pose proof (length_param_if (0 <? length (ResultType r))%nat "result_type"
                (Fmt.Join (ResultType r) "|")).
  lia.
Qed.

End QueryMoreFacts.

(** X5: the query string has a parameter [language] exactly when the
    [Language] field is not empty, and its value is that field, escaped. *)
Theorem query_language (h : gmap addr Service) (r : ReverseGeocodeCall) (s : Service) :
  h !! service r = Some s →
  query h r = Some (Fmt.Join (URL.render <$> URL.pairs (query_values s r)) "&")
  ∧ (∀ x, ("language", x) ∈ URL.pairs (query_values s r) ↔
          Language r ≠ "" ∧ x = Language r)
  ∧ (Language r = "" → query_values s r !! "language" = None)
  ∧ URL.render ("language", Language r) = "language=" +:+ URL.QueryEscape (Language r).
Proof.
  intros Hs. split_and!.
  - by apply query_Some.
  - intros x. rewrite pairs_query_values, elem_of_params. split.
    + intros H. decompose [and or] H; try discriminate; auto.
    + intros [? ->]. eauto 10.
  - intros Hl. rewrite query_values_lookup_language.
    by apply str_nonempty_false in Hl as ->.
  - reflexivity.
Qed.

Lemma query_language_witness :
  Sample.heap !! service Sample.call_filtered = Some Sample.service_K
  ∧ ("language", "th") ∈ URL.pairs (query_values Sample.service_K Sample.call_filtered).
Proof.
  split; [reflexivity|].
  destruct (query_language Sample.heap Sample.call_filtered Sample.service_K)
    as (_ & H & _); [reflexivity|].
  apply H. split; [discriminate|reflexivity].
Defined.

(** X6: the place identifier is never sent.  [validate], [query] and [Do]
    look at the [PlaceId] field only to see whether it is empty: replacing
    one identifier by another of the same emptiness changes none of them. *)
Theorem PlaceId_not_sent (Unmarshal : string → GeocodeResponse + error)
    (h : gmap addr Service) (r : ReverseGeocodeCall) (pid : string) :
  (pid = "" ↔ PlaceId r = "") →
  validate (set_PlaceId pid r) = validate r
  ∧ query h (set_PlaceId pid r) = query h r
  ∧ Do Unmarshal h (set_PlaceId pid r) = Do Unmarshal h r.
Proof.
  intros Hp%str_nonempty_iff.
  assert (validate (set_PlaceId pid r) = validate r) as Hv.
  { unfold validate, set_PlaceId. cbn. by rewrite Hp. }
  assert (query h (set_PlaceId pid r) = query h r) as Hq.
  { unfold query. change (service (set_PlaceId pid r)) with (service r).
    destruct (h !! service r) as [s|]; [|done]. by rewrite query_values_PlaceId. }
  split_and!; [done..|].
  unfold Do. rewrite Hv, Hq. done.
Qed.

Lemma PlaceId_not_sent_witness :
  query Sample.heap (set_PlaceId "ChIJN1t_tDeuEmsRUsoyG83frY4" Sample.call_place)
  = query Sample.heap Sample.call_place.
Proof.
  apply (PlaceId_not_sent Sample.Unmarshal Sample.heap Sample.call_place
           "ChIJN1t_tDeuEmsRUsoyG83frY4").
  split; discriminate.
Defined.

(** X7: field values cannot add parameters.  The query string holds between
    one and six pairs; it has one [=] for each pair and one [&] between
    two neighbours, whatever bytes the key and the fields contain. *)
Theorem query_separators (h : gmap addr Service) (r : ReverseGeocodeCall) (s : Service) :
  h !! service r = Some s →
  ∃ q, query h r = Some q
       ∧ (count_char "&" q + 1)%nat = length (URL.pairs (query_values s r))
       ∧ count_char "=" q = length (URL.pairs (query_values s r))
       ∧ (1 ≤ length (URL.pairs (query_values s r)) ≤ 6)%nat.
Proof.
  intros Hs. eexists. split; [by apply query_Some|].
  rewrite pairs_query_values.
  destruct (count_Join_render (params s r)) as [Ha He]; [done|].
  split_and!; [done|done|apply length_params..].
Qed.

Lemma query_separators_witness :
  Sample.heap !! service Sample.call_filtered = Some Sample.service_K
  ∧ ∃ q, query Sample.heap Sample.call_filtered = Some q
         ∧ (count_char "&" q + 1)%nat
           = length (URL.pairs (query_values Sample.service_K Sample.call_filtered)).
Proof.
  split; [reflexivity|].
  destruct (query_separators Sample.heap Sample.call_filtered Sample.service_K)
    as (q & Hq & Ha & _); [reflexivity|].
  exists q. by split.
Defined.

(** ** More on [Do] *)

Section DoMoreFacts.

Variable Unmarshal : string → GeocodeResponse + error.

(** When validation fails or the service pointer dangles, the run of [Do]
    makes no call. *)
Lemma run_Do_stopped (h : gmap addr Service) (n : ReverseGeocodeCall) (w : HTTP.World) :
  validate n ≠ None ∨ h !! service n = None →
  HTTP.run w (Do Unmarshal h n)
  = ([], match validate n with Some err => Some (inr err) | None => None end).
Proof.
  intros Hstop. unfold Do, query. destruct (validate n) as [err|]; [done|].
  destruct Hstop as [?| ->]; done.
Qed.

Lemma handle_body_inl (resp : HTTP.Response) (body : string) (data : GeocodeResponse) :
  handle_body Unmarshal resp body = inl data →
  HTTP.StatusCode resp = 200 ∧ Unmarshal body = inl data ∧ Status data = "OK".
Proof.
  unfold handle_body, HTTP.StatusOK.
  destruct (Z.eqb_spec (HTTP.StatusCode resp) 200) as [Hc|]; [|done]. cbn [negb].
  destruct (Unmarshal body) as [d|]; [|done].
  destruct (String.eqb_spec (Status d) "OK"); [|done]. by intros [= ->].
Qed.

End DoMoreFacts.

(** X8: when the transport fails, [Do] returns the transport's error as it
    is; the run is the one [Get], nothing is read and nothing is closed. *)
Theorem Do_transport_error (Unmarshal : string → GeocodeResponse + error)
    (h : gmap addr Service) (n : ReverseGeocodeCall) (s : Service) (q : string)
    (w : HTTP.World) (err : error) :
  validate n = None →
  h !! service n = Some s →
  query h n = Some q →
  HTTP.on_Get w (client s) (searchURL q) = Some (inr err) →
  HTTP.run w (Do Unmarshal h n)
  = ([existT _ (HTTP.Get (client s) (searchURL q))], Some (inr err)).
Proof.
  intros Hv Hs Hq Hget. by rewrite (run_Do_valid Unmarshal h n s q w Hv Hs Hq), Hget.
Qed.

Lemma Do_transport_error_witness :
  HTTP.run Outage.world_down (Do Sample.Unmarshal Sample.heap Sample.call)
  = ([existT _ (HTTP.Get (Some 0%nat) (searchURL "key=K&latlng=13.750000%2C100.500000"))],
     Some (inr Outage.refused)).
Proof.
  apply (Do_transport_error Sample.Unmarshal Sample.heap Sample.call Sample.service_K
           "key=K&latlng=13.750000%2C100.500000" Outage.world_down Outage.refused);
    reflexivity.
Defined.

(** X9: when reading the body fails, [Do] returns the read error, whatever
    the status code was (a status other than 200 is not reported then), and
    the body is closed. *)
Theorem Do_read_error (Unmarshal : string → GeocodeResponse + error)
    (h : gmap addr Service) (n : ReverseGeocodeCall) (s : Service) (q : string)
    (w : HTTP.World) (resp : HTTP.Response) (err : error) :
  validate n = None →
  h !! service n = Some s →
  query h n = Some q →
  HTTP.on_Get w (client s) (searchURL q) = Some (inl resp) →
  HTTP.on_ReadAll w (HTTP.RespBody resp) = inr err →
  HTTP.run w (Do Unmarshal h n)
  = (trace_of (client s) (searchURL q) (HTTP.RespBody resp), Some (inr err)).
Proof.
  intros Hv Hs Hq Hget Hread.
  by rewrite (run_Do_valid Unmarshal h n s q w Hv Hs Hq), Hget, Hread.
Qed.

Lemma Do_read_error_witness :
  HTTP.run (Outage.world_cut 500) (Do Sample.Unmarshal Sample.heap Sample.call)
  = (trace_of (Some 0%nat) (searchURL "key=K&latlng=13.750000%2C100.500000") 7%nat,
     Some (inr Outage.cut)).
Proof.
  apply (Do_read_error Sample.Unmarshal Sample.heap Sample.call Sample.service_K
           "key=K&latlng=13.750000%2C100.500000" (Outage.world_cut 500)
           (HTTP.mkResponse 500 7%nat) Outage.cut);
    reflexivity.
Defined.

(** X10: when the status is 200 and the body does not decode, [Do] returns
    the decoder's error as it is, after closing the body. *)
Theorem Do_decode_error (Unmarshal : string → GeocodeResponse + error)
    (h : gmap addr Service) (n : ReverseGeocodeCall) (s : Service) (q : string)
    (w : HTTP.World) (resp : HTTP.Response) (body : string) (err : error) :
  validate n = None →
  h !! service n = Some s →
  query h n = Some q →
  HTTP.on_Get w (client s) (searchURL q) = Some (inl resp) →
  HTTP.on_ReadAll w (HTTP.RespBody resp) = inl body →
  HTTP.StatusCode resp = 200 →
  Unmarshal body = inr err →
  HTTP.run w (Do Unmarshal h n)
  = (trace_of (client s) (searchURL q) (HTTP.RespBody resp), Some (inr err)).
Proof.
  intros Hv Hs Hq Hget Hread Hcode Hdec.
  rewrite (run_Do_valid Unmarshal h n s q w Hv Hs Hq), Hget, Hread.
  unfold handle_body, HTTP.StatusOK. by rewrite Hcode, Hdec.
Qed.

Lemma Do_decode_error_witness :
  HTTP.run (Sample.world 200 "oops") (Do Sample.Unmarshal Sample.heap Sample.call)
  = (trace_of (Some 0%nat) (searchURL "key=K&latlng=13.750000%2C100.500000") 7%nat,
     Some (inr (foreignError "invalid character"))).
Proof.
  apply (Do_decode_error Sample.Unmarshal Sample.heap Sample.call Sample.service_K
           "key=K&latlng=13.750000%2C100.500000" (Sample.world 200 "oops")
           (HTTP.mkResponse 200 7%nat) "oops" (foreignError "invalid character"));
    reflexivity.
Defined.

(** X11: a response is returned only at the end of the whole path: the call
    passed validation, the transport answered 200, the body was read, it
    decoded to the very response returned, and its status is [OK]. *)
Theorem Do_success_inv (Unmarshal : string → GeocodeResponse + error)
    (h : gmap addr Service) (n : ReverseGeocodeCall) (w : HTTP.World)
    (data : GeocodeResponse) :
  (HTTP.run w (Do Unmarshal h n)).2 = Some (inl data) →
  Status data = "OK"
  ∧ validate n = None
  ∧ ∃ s q resp body,
      h !! service n = Some s ∧ query h n = Some q
      ∧ HTTP.on_Get w (client s) (searchURL q) = Some (inl resp)
      ∧ HTTP.StatusCode resp = 200
      ∧ HTTP.on_ReadAll w (HTTP.RespBody resp) = inl body
      ∧ Unmarshal body = inl data.
Proof.
  intros Hrun.
  destruct (validate n) as [err|] eqn:Hv.
  { rewrite run_Do_stopped in Hrun by (left; congruence). by rewrite Hv in Hrun. }
  destruct (h !! service n) as [s|] eqn:Hs.
  2:{ rewrite run_Do_stopped in Hrun by (by right). by rewrite Hv in Hrun. }
  assert (∃ q, query h n = Some q) as [q Hq] by (unfold query; rewrite Hs; eauto).
  rewrite (run_Do_valid Unmarshal h n s q w Hv Hs Hq) in Hrun.
  destruct (HTTP.on_Get w (client s) (searchURL q)) as [[resp|]|] eqn:Hget; [|done..].
  destruct (HTTP.on_ReadAll w (HTTP.RespBody resp)) as [body|] eqn:Hread; [|done].
  cbn [snd] in Hrun. injection Hrun as Hbody.
  apply handle_body_inl in Hbody as (Hcode & Hdec & Hok).
  split_and!; [done..|]. exists s, q, resp, body. done.
Qed.

Lemma Do_success_inv_witness :
  (HTTP.run (Sample.world 200 Outage.body_ok) (Do Outage.Unmarshal_ok Sample.heap Sample.call)).2
  = Some (inl Outage.response_ok)
  ∧ Status Outage.response_ok = "OK".
Proof.
  split; [reflexivity|].
  apply (Do_success_inv Outage.Unmarshal_ok Sample.heap Sample.call
           (Sample.world 200 Outage.body_ok) Outage.response_ok).
  reflexivity.
Defined.

(** X12: whatever the call, the heap, the decoder and the environment, a
    run of [Do] makes no call, or one [Get] that failed, or one [Get] that
    gave a response followed by one [ReadAll] and one [Close] of that
    response's body: a body that was obtained is always closed, also when
    [Do] returns an error. *)
Theorem Do_trace_shape (Unmarshal : string → GeocodeResponse + error)
    (h : gmap addr Service) (n : ReverseGeocodeCall) (w : HTTP.World) :
  (HTTP.run w (Do Unmarshal h n)).1 = []
  ∨ (∃ c u err, HTTP.on_Get w c u = Some (inr err)
                ∧ (HTTP.run w (Do Unmarshal h n)).1 = [existT _ (HTTP.Get c u)])
  ∨ (∃ c u resp, HTTP.on_Get w c u = Some (inl resp)
                 ∧ (HTTP.run w (Do Unmarshal h n)).1 = trace_of c u (HTTP.RespBody resp)).
Proof.
  destruct (validate n) as [err|] eqn:Hv.
  { left. by rewrite run_Do_stopped by (left; congruence). }
  destruct (h !! service n) as [s|] eqn:Hs.
  2:{ left. by rewrite run_Do_stopped by (by right). }
  assert (∃ q, query h n = Some q) as [q Hq] by (unfold query; rewrite Hs; eauto).
  rewrite (run_Do_valid Unmarshal h n s q w Hv Hs Hq).
  destruct (HTTP.on_Get w (client s) (searchURL q)) as [[resp|err]|] eqn:Hget.
  - right; right. by exists (client s), (searchURL q), resp.
  - right; left. by exists (client s), (searchURL q), err.
  - by left.
Qed.

(** X13: [Do] reaches the network exactly when the call passes validation,
    its service pointer is live and the service's client is not nil; it
    panics exactly when the call passes validation and the pointer dangles
    or the client is nil.  An invalid call returns its error even through a
    dangling pointer or a nil client. *)
Theorem Do_request_iff (Unmarshal : string → GeocodeResponse + error)
    (h : gmap addr Service) (n : ReverseGeocodeCall) (w : HTTP.World) :
  ((HTTP.run w (Do Unmarshal h n)).1 ≠ []
   ↔ validate n = None ∧ ∃ s, h !! service n = Some s ∧ client s ≠ None)
  ∧ ((HTTP.run w (Do Unmarshal h n)).2 = None
     ↔ validate n = None
       ∧ (h !! service n = None ∨ ∃ s, h !! service n = Some s ∧ client s = None)).
Proof.
  destruct (validate n) as [err|] eqn:Hv.
  { rewrite run_Do_stopped by (left; congruence). rewrite Hv. cbn. naive_solver. }
  destruct (h !! service n) as [s|] eqn:Hs.
  2:{ rewrite run_Do_stopped by (by right). rewrite Hv. cbn.
      split; split; try done; naive_solver. }
  assert (∃ q, query h n = Some q) as [q Hq] by (unfold query; rewrite Hs; eauto).
  rewrite (run_Do_valid Unmarshal h n s q w Hv Hs Hq). unfold HTTP.on_Get.
  destruct (client s) as [k|] eqn:Hc.
  - destruct (HTTP.transport w k (searchURL q)) as [resp|err]; cbn;
      split; split; try done; try naive_solver.
  - cbn. split; split; try done; naive_solver.
Qed.

(** X14: [Do] reads the key and the client of the service the call points
    to and nothing else in the heap: on two heaps that agree on these two
    fields at that address it is the same program. *)
Theorem Do_frame (Unmarshal : string → GeocodeResponse + error)
    (h1 h2 : gmap addr Service) (n : ReverseGeocodeCall) :
  key <$> h1 !! service n = key <$> h2 !! service n →
  client <$> h1 !! service n = client <$> h2 !! service n →
  query h1 n = query h2 n ∧ Do Unmarshal h1 n = Do Unmarshal h2 n.
Proof.
  intros Hk Hc.
  assert (query h1 n = query h2 n) as Hq.
  { unfold query. destruct (h1 !! service n) as [s1|], (h2 !! service n) as [s2|];
      simplify_eq/=; [|done]. do 2 f_equal. by apply query_values_key_only. }
  split; [done|]. unfold Do. rewrite Hq.
  destruct (validate n) as [err|]; [done|]. destruct (query h2 n) as [q|]; [|done].
  destruct (h1 !! service n) as [s1|], (h2 !! service n) as [s2|]; simplify_eq/=; [|done].
  by rewrite Hc.
Qed.

Lemma Do_frame_witness :
  Do Sample.Unmarshal Sample.heap Sample.call
  = Do Sample.Unmarshal (NewService (Some 5%nat) "other" Sample.heap_local).2 Sample.call.
Proof.
  apply (Do_frame Sample.Unmarshal Sample.heap
           (NewService (Some 5%nat) "other" Sample.heap_local).2 Sample.call);
    reflexivity.
Defined.

(** X15: from allocation to request.  A call built by [ReverseGeocode] on a
    service fresh from [NewService], with a coordinate that is not zero, has
    the query string [key=<key>&latlng=<lat>%2C<lng>] and nothing more, and
    [Do] starts by asking the service's client for the default endpoint
    followed by that string; unless the client is nil, that request is the
    first call to reach the transport. *)
Theorem NewService_ReverseGeocode_Do (Unmarshal : string → GeocodeResponse + error)
    (c : HTTP.Client) (k : string) (h : gmap addr Service) (la ln : float64)
    (w : HTTP.World) :
  F64.ne la F64.zero = true ∨ F64.ne ln F64.zero = true →
  ∃ q, q = "key=" +:+ URL.QueryEscape k +:+ "&latlng="
           +:+ URL.QueryEscape (Fmt.sprintf_f la) +:+ "%2C"
           +:+ URL.QueryEscape (Fmt.sprintf_f ln)
       ∧ query (NewService c k h).2 (ReverseGeocode (NewService c k h).1 la ln) = Some q
       ∧ (∃ rest, Do Unmarshal (NewService c k h).2
                     (ReverseGeocode (NewService c k h).1 la ln)
                  = HTTP.Vis (HTTP.Get c (baseURL +:+ "/json?" +:+ q)) rest)
       ∧ (c ≠ None →
          head (HTTP.run w (Do Unmarshal (NewService c k h).2
                              (ReverseGeocode (NewService c k h).1 la ln))).1
          = Some (existT _ (HTTP.Get c (baseURL +:+ "/json?" +:+ q)))).
Proof.
  intros Hco. eexists. split; [reflexivity|].
  set (p := (NewService c k h).1). set (h' := (NewService c k h).2).
  set (s := {| client := c; key := k; url := baseURL |}).
  assert (h' !! service (ReverseGeocode p la ln) = Some s) as Hs.
  { unfold h', p, NewService. cbn [fst snd service ReverseGeocode].
    by rewrite lookup_insert_eq. }
  assert (validate (ReverseGeocode p la ln) = None) as Hv.
  { unfold validate. cbn [lat lng ReverseGeocode].
    destruct Hco as [-> | ->]; [done|]. by rewrite orb_true_r. }
  assert (params s (ReverseGeocode p la ln)
          = [("key", k); ("latlng", latlng_string la ln)]) as Hparams.
  { unfold params, params_tail, has_coords. cbn.
    destruct Hco as [-> | ->]; [done|]. by rewrite orb_true_r. }
  assert (query h' (ReverseGeocode p la ln)
          = Some ("key=" +:+ URL.QueryEscape k +:+ "&latlng="
                  +:+ URL.QueryEscape (Fmt.sprintf_f la) +:+ "%2C"
                  +:+ URL.QueryEscape (Fmt.sprintf_f ln))) as Hq.
  { rewrite (query_Some _ _ _ Hs), pairs_query_values, Hparams. f_equal.
    change (URL.render <$> [("key", k); ("latlng", latlng_string la ln)])
      with [URL.render ("key", k); URL.render ("latlng", latlng_string la ln)].
    rewrite Join_cons. unfold URL.render, latlng_string. cbn [fst snd Fmt.Join].
    rewrite !QueryEscape_app, !str_app_assoc. reflexivity. }
  split; [done|]. split.
  - unfold Do. rewrite Hv, Hq, Hs. cbn [HTTP.call HTTP.bind client s]. eauto.
  - intros Hc. rewrite (run_Do_valid Unmarshal h' _ s _ w Hv Hs Hq). cbn [client s].
    destruct c as [c|]; [|done]. cbn [HTTP.on_Get].
    by destruct (HTTP.transport w c _).
Qed.

Lemma NewService_ReverseGeocode_Do_witness :
  query (NewService (Some 3%nat) "a b" ∅).2
        (ReverseGeocode (NewService (Some 3%nat) "a b" ∅).1 Sample.lat_bkk F64.zero)
  = Some "key=a+b&latlng=13.750000%2C0.000000".
Proof.
  destruct (NewService_ReverseGeocode_Do Sample.Unmarshal (Some 3%nat) "a b" ∅
              Sample.lat_bkk F64.zero (Sample.world 200 "oops"))
    as (q & -> & Hq & _); [left; reflexivity|].
  exact Hq.
Defined.

(** X16: a lookup by place identifier alone cannot name its place.  With
    both coordinates zero, a place identifier, and no language or filter
    set, the call passes validation and its query string is
    [key=<key>&place_id=], the value of [place_id] being empty. *)
Theorem query_place_only (h : gmap addr Service) (r : ReverseGeocodeCall) (s : Service) :
  h !! service r = Some s →
  F64.ne (lat r) F64.zero = false →
  F64.ne (lng r) F64.zero = false →
  PlaceId r ≠ "" →
  Language r = "" →
  ResultType r = [] →
  LocationType r = [] →
  validate r = None
  ∧ query h r = Some ("key=" +:+ URL.QueryEscape (key s) +:+ "&place_id=").
Proof.
  intros Hs Hla Hln Hp%str_nonempty_true Hl Hr Ht. split.
  - unfold validate. by rewrite Hla, Hln, Hp.
  - rewrite (query_Some _ _ _ Hs), pairs_query_values.
    unfold params, params_tail, has_coords. rewrite Hla, Hln, Hp, Hl, Hr, Ht. cbn.
    unfold URL.render. cbn [fst snd URL.QueryEscape].
    rewrite !str_app_assoc. reflexivity.
Qed.

Lemma query_place_only_witness :
  query Sample.heap (ReverseGeocode Sample.svc F64.zero F64.zero)
  = Some "key=K"
  ∧ query Sample.heap
      (set_PlaceId "ChIJ82ENKDJgHTERIEjiXbIAAQE" (ReverseGeocode Sample.svc F64.zero F64.zero))
    = Some "key=K&place_id=".
Proof.
  split; [reflexivity|].
  apply (query_place_only Sample.heap
           (set_PlaceId "ChIJ82ENKDJgHTERIEjiXbIAAQE"
              (ReverseGeocode Sample.svc F64.zero F64.zero))
           Sample.service_K);
    try reflexivity.
  discriminate.
Defined.

(** ** Further sample runs *)

Example sprintf_f_padding :
  F64.valid Edge.twentieth = true
  ∧ Fmt.sprintf_f Edge.twentieth = "0.050000"
  ∧ Fmt.sprintf_f (S754_infinity true) = "-Inf".
Proof. by vm_compute. Qed.

Example Do_nil_client :
  HTTP.run (Sample.world 200 Sample.body_zero_results)
    (Do Sample.Unmarshal (NewService None "K" ∅).2
       (ReverseGeocode (NewService None "K" ∅).1 Sample.lat_bkk Sample.lng_bkk))
  = ([], None).
Proof. by vm_compute. Qed.
